(** * sigmulator: the combat simulator, embedded and verified

    Shallow embedding of [src/combat_simulator/combat_simulator.py]:
    the dice engine [roll_dice], the unit state with [take_damage] and
    [deal_damage], and the Monte Carlo driver [combat_simulation].

    Conventions of the embedding.
    - Python integers are [Z]; [//] and [%] are [Z.div] and [Z.modulo]
      (both floor, sign of the divisor).  The width of numpy's [int64]
      scalars is not modelled.  On a zero [wounds_per_model] the model
      raises, as [//] does on Python [int]s (on a numpy scalar it warns and
      gives 0); every statement that reaches the division either assumes a
      non-zero divisor or speaks of the calls that return.
    - Randomness is an explicit input.  The program has two sources: the
      process-wide generator behind [np.random.random()], and the
      operating-system entropy that seeds the fresh generator made by every
      [np.random.default_rng()].  Both live in the [World].
    - Exceptions abort the computation: a run is [Ok] with a value and the
      world after it, or [Raise] with the exception. *)

From Stdlib Require Import ZArith List Bool String Ascii Lia QArith Sorted.
Import ListNotations.
Open Scope Z_scope.

(** ** Exceptions, random sources and the effect monad *)

Inductive PyError : Type :=
| ValueError
| ZeroDivisionError
| TypeError.

(** A generator is a stream of raw outputs and the number already used. *)
Record Generator : Type := mkGenerator {
  stream : nat -> Z;
  cursor : nat
}.

Definition advance (g : Generator) (n : nat) : Generator :=
  {| stream := stream g; cursor := (cursor g + n)%nat |}.

(** [os_entropy k] is the stream of the generator that the [k]-th call of
    [default_rng()] returns; [legacy] is the process-wide generator. *)
Record World : Type := mkWorld {
  os_entropy : nat -> nat -> Z;
  os_calls : nat;
  legacy : Generator
}.

Inductive Res (A : Type) : Type :=
| Ok (a : A) (w : World)
| Raise (e : PyError).
Arguments Ok {A} a w.
Arguments Raise {A} e.

Definition M (A : Type) : Type := World -> Res A.

Definition ret {A} (a : A) : M A := fun w => Ok a w.

Definition bind {A B} (m : M A) (k : A -> M B) : M B :=
  fun w => match m w with
           | Ok a w' => k a w'
           | Raise e => Raise e
           end.

Definition raise {A} (e : PyError) : M A := fun _ => Raise e.

Declare Scope py_scope.
Delimit Scope py_scope with py.
Notation "x <- c ;; k" := (bind c (fun x => k))
  (at level 61, c at next level, right associativity) : py_scope.
Notation "' pat <- c ;; k" := (bind c (fun x => match x with pat => k end))
  (at level 61, pat pattern, c at next level, right associativity) : py_scope.
Open Scope py_scope.

(** [np.random.default_rng()]: a fresh generator seeded by the system. *)
Definition spawned (w : World) : Generator :=
  {| stream := os_entropy w (os_calls w); cursor := 0 |}.

Definition after_spawn (w : World) : World :=
  {| os_entropy := os_entropy w;
     os_calls := S (os_calls w);
     legacy := legacy w |}.

Definition default_rng : M Generator :=
  fun w => Ok (spawned w) (after_spawn w).

(** [np.random.random()]: a float [k / 2^53] with [0 <= k < 2^53], drawn
    from the process-wide generator. *)
Definition np_random_random : M Q :=
  fun w => let g := legacy w in
           Ok (Qmake (stream g (cursor g) mod 2 ^ 53) (2 ^ 53))
              {| os_entropy := os_entropy w;
                 os_calls := os_calls w;
                 legacy := advance g 1 |}.

(** The next [n] outputs of a generator, mapped into [low, high). *)
Definition draws (g : Generator) (low high : Z) (n : nat) : list Z :=
  map (fun i => low + stream g (cursor g + i) mod (high - low)) (seq 0 n).

(** [rng.integers(low, high, size=size)]: [size] values in [low, high);
    a negative size raises [ValueError]. *)
Definition integers (g : Generator) (low high size : Z)
  : PyError + (list Z * Generator) :=
  if size <? 0 then inl ValueError
  else let n := Z.to_nat size in
       inr (draws g low high n, advance g n).

(** [np.sum] of a boolean array. *)
Fixpoint np_sum (bs : list bool) : Z :=
  match bs with
  | [] => 0
  | b :: bs' => (if b then 1 else 0) + np_sum bs'
  end.

(** ** Dice engine *)

Inductive RollDirection : Type := MATCH | ABOVE | BELOW.

Definition RollDirection_value (d : RollDirection) : string :=
  match d with
  | MATCH => "match"
  | ABOVE => "above"
  | BELOW => "below"
  end.

(** [RollDirection(s)]: lookup of an enum member by value. *)
Definition RollDirection_of_value (s : string) : option RollDirection :=
  if String.eqb s "match" then Some MATCH
  else if String.eqb s "above" then Some ABOVE
  else if String.eqb s "below" then Some BELOW
  else None.

Definition lower_ascii (c : ascii) : ascii :=
  let n := nat_of_ascii c in
  if andb (Nat.leb 65 n) (Nat.leb n 90) then ascii_of_nat (n + 32) else c.

(** [str.lower()] on the bytes of the string. *)
Fixpoint lower (s : string) : string :=
  match s with
  | EmptyString => EmptyString
  | String c s' => String (lower_ascii c) (lower s')
  end.

(** The [direction] parameter is [Union[RollDirection, str]]. *)
Inductive DirectionArg : Type :=
| DirEnum (d : RollDirection)
| DirStr (s : string).

(** Lines 23-24: a string is lowered and looked up; an unknown value
    raises [ValueError]. *)
Definition as_RollDirection (direction : DirectionArg)
  : option RollDirection :=
  match direction with
  | DirEnum d => Some d
  | DirStr s => RollDirection_of_value (lower s)
  end.

(** The return type: [hits], or [(hits, crits)] when [critical_count]. *)
Definition Rolled (critical_count : bool) : Type :=
  if critical_count then (Z * Z)%type else Z.

(** Lines 22-40 of [roll_dice], on a given generator; the generator after
    the draw is returned next to the result. *)
Definition roll_dice_on (g : Generator) (num_dice target : Z)
    (direction : DirectionArg) (critical_count : bool)
    (critical_threshold : Z)
  : PyError + (Rolled critical_count * Generator) :=
  match as_RollDirection direction with
  | None => inl ValueError
  | Some d =>
    match integers g 1 7 num_dice with
    | inl e => inl e
    | inr (rolls, g') =>
      let hits :=
        match d with
        | MATCH => np_sum (map (fun r => target <=? r) rolls)
        | ABOVE => np_sum (map (fun r => target <? r) rolls)
        | BELOW => np_sum (map (fun r => r <? target) rolls)
        end in
      inr (match critical_count return Rolled critical_count with
           | true => (hits, np_sum (map (fun r => critical_threshold <=? r) rolls))
           | false => hits
           end, g')
    end
  end.

(** [roll_dice]: with [rng = None] a fresh [default_rng()] is made.  A
    generator passed by the caller is advanced in place in Python; no caller
    in the program passes one, and the advanced generator is available from
    [roll_dice_on]. *)
Definition roll_dice (num_dice target : Z) (rng : option Generator)
    (direction : DirectionArg) (critical_count : bool)
    (critical_threshold : Z) : M (Rolled critical_count) :=
  g <- match rng with
       | None => default_rng
       | Some g => ret g
       end ;;
  match roll_dice_on g num_dice target direction critical_count
                     critical_threshold with
  | inl e => raise e
  | inr (r, _) => ret r
  end.

(** ** Weapons and units *)

Record Weapon : Type := mkWeapon {
  weapon_name : string;
  attacks : Z;
  to_hit : Z;
  to_wound : Z;
  rend : Z;
  damage : Z;
  companion : bool;
  crit_threshold : Z;
  crit_mortals : bool;
  crit_explode : bool
}.

(** [weapons] defaults to [None] in the dataclass. *)
Record Unit : Type := mkUnit {
  name : string;
  models : Z;
  wounds_per_model : Z;
  save : Z;
  ward_save : Z;
  ethereal : bool;
  beacon_of_protection : bool;
  weapons : option (list Weapon);
  has_leader : bool;
  unit_alive : bool;
  total_wounds : Z
}.

(** The dataclass constructor followed by [__post_init__]. *)
Definition Unit_init (name : string) (models wounds_per_model save ward_save : Z)
    (ethereal beacon_of_protection : bool) (weapons : option (list Weapon))
    (has_leader unit_alive : bool) : Unit :=
  {| name := name; models := models; wounds_per_model := wounds_per_model;
     save := save; ward_save := ward_save; ethereal := ethereal;
     beacon_of_protection := beacon_of_protection; weapons := weapons;
     has_leader := has_leader; unit_alive := unit_alive;
     total_wounds := models * wounds_per_model |}.

(** Truth value of a Python integer. *)
Definition truthy (z : Z) : bool := negb (z =? 0).

(** Lines 79-87 for a non-zero [wounds_per_model]: the unit after
    [wounds_through_save] is subtracted and the models are counted again. *)
Definition after_wounds (self : Unit) (wounds_through_save : Z) : Unit :=
  let total_wounds' := total_wounds self - wounds_through_save in
  let full_models := total_wounds' / wounds_per_model self in
  let has_partial_model :=
    if 0 <? total_wounds' mod wounds_per_model self then 1 else 0 in
  let models' := Z.max 0 (full_models + has_partial_model) in
  {| name := name self; models := models';
     wounds_per_model := wounds_per_model self;
     save := save self; ward_save := ward_save self;
     ethereal := ethereal self;
     beacon_of_protection := beacon_of_protection self;
     weapons := weapons self; has_leader := has_leader self;
     unit_alive := if models' <=? 0 then false else unit_alive self;
     total_wounds := total_wounds' |}.

(** Lines 79-87: [//] and [%] raise on a zero [wounds_per_model]. *)
Definition apply_wounds (self : Unit) (wounds_through_save : Z) : M Unit :=
  if wounds_per_model self =? 0 then raise ZeroDivisionError
  else ret (after_wounds self wounds_through_save).

(** Lines 66-71: the save stage. *)
Definition save_stage (self : Unit) (damage rend : Z) (mortal : bool) : M Z :=
  if mortal then ret damage
  else if ethereal self
       then roll_dice damage (save self) None (DirStr "below") false 6
       else roll_dice damage (save self + rend) None (DirStr "below") false 6.

(** Lines 73-74: the ward stage. *)
Definition ward_stage (self : Unit) (wounds_through_save : Z)
    (ward_ignore : bool) : M Z :=
  if andb (truthy (ward_save self)) (negb ward_ignore)
  then roll_dice wounds_through_save (ward_save self) None (DirStr "below")
                 false 6
  else ret wounds_through_save.

(** Lines 76-77: the damage-reduction aura. *)
Definition beacon_stage (self : Unit) (wounds_through_save : Z) : Z :=
  if beacon_of_protection self then Z.max 0 (wounds_through_save - 1)
  else wounds_through_save.

(** [Unit.take_damage]: returns [wounds_through_save] and the unit after
    the call. *)
Definition take_damage (self : Unit) (damage rend : Z)
    (mortal ward_ignore : bool) : M (Z * Unit) :=
  wounds_through_save <- save_stage self damage rend mortal ;;
  wounds_through_save <- ward_stage self wounds_through_save ward_ignore ;;
  let wounds_through_save := beacon_stage self wounds_through_save in
  self' <- apply_wounds self wounds_through_save ;;
  ret (wounds_through_save, self').

(** A damage tuple [(damage, rend, damage_type)]. *)
Definition DamageEvent : Type := (Z * Z * string)%type.

(** Lines 97-99: the size of the hit roll. *)
Definition weapon_attacks (self : Unit) (weapon : Weapon) : Z :=
  let weapon_attacks := attacks weapon * models self in
  if andb (has_leader self) (negb (companion weapon))
  then weapon_attacks + 1 else weapon_attacks.

(** Lines 102-112: the hit sequence; returns [attacks_landed] and the
    damage list, extended by the mortal tuple where one is appended. *)
Definition hit_sequence (self : Unit) (hit_modifier : Z) (weapon : Weapon)
    (damage_list : list DamageEvent) : M (Z * list DamageEvent) :=
  if crit_explode weapon then
    '(attacks_landed, crits) <-
      roll_dice (weapon_attacks self weapon) (to_hit weapon - hit_modifier)
                None (DirStr "match") true (crit_threshold weapon) ;;
    ret (attacks_landed + crits, damage_list)
  else if crit_mortals weapon then
    '(attacks_landed, crits) <-
      roll_dice (weapon_attacks self weapon) (to_hit weapon - hit_modifier)
                None (DirStr "match") true (crit_threshold weapon) ;;
    let damage_list :=
      if 0 <? crits
      then damage_list ++ [(crits * damage weapon, 0, "mortal"%string)]
      else damage_list in
    ret (attacks_landed - crits, damage_list)
  else
    attacks_landed <-
      roll_dice (weapon_attacks self weapon) (to_hit weapon - hit_modifier)
                None (DirStr "match") false 6 ;;
    ret (attacks_landed, damage_list).

(** Lines 97-119: the body of the loop over the weapons. *)
Definition deal_damage_weapon (self : Unit) (hit_modifier wound_modifier : Z)
    (weapon : Weapon) (damage_list : list DamageEvent)
  : M (list DamageEvent) :=
  '(attacks_landed, damage_list) <-
    hit_sequence self hit_modifier weapon damage_list ;;
  wounds_landed <-
    roll_dice attacks_landed (to_wound weapon - wound_modifier) None
              (DirStr "match") false 6 ;;
  ret (if 0 <? wounds_landed
       then damage_list
            ++ [(wounds_landed * damage weapon, rend weapon, "normal"%string)]
       else damage_list).

(** The [for weapon in self.weapons] loop. *)
Fixpoint deal_damage_loop (self : Unit) (hit_modifier wound_modifier : Z)
    (ws : list Weapon) (damage_list : list DamageEvent)
  : M (list DamageEvent) :=
  match ws with
  | [] => ret damage_list
  | weapon :: ws' =>
    damage_list' <-
      deal_damage_weapon self hit_modifier wound_modifier weapon damage_list ;;
    deal_damage_loop self hit_modifier wound_modifier ws' damage_list'
  end.

(** [Unit.deal_damage]; iterating [None] raises [TypeError]. *)
Definition deal_damage (self : Unit) (hit_modifier wound_modifier : Z)
  : M (list DamageEvent) :=
  match weapons self with
  | None => raise TypeError
  | Some ws => deal_damage_loop self hit_modifier wound_modifier ws []
  end.

(** ** Monte Carlo driver *)

(** The loop [for damage, rend, damage_type in damage_list] that applies
    the tuples to the receiving unit. *)
Fixpoint apply_damage_list (target : Unit) (damage_list : list DamageEvent)
  : M Unit :=
  match damage_list with
  | [] => ret target
  | (damage, rend, damage_type) :: rest =>
    '(_, target') <-
      (if String.eqb damage_type "mortal"
       then take_damage target damage 0 true false
       else take_damage target damage rend false false) ;;
    apply_damage_list target' rest
  end.

(** One strike: [if striker.unit_alive:] deal damage and apply it. *)
Definition strike (striker target : Unit) (hit_modifier wound_modifier : Z)
  : M Unit :=
  if unit_alive striker then
    damage_list <- deal_damage striker hit_modifier wound_modifier ;;
    apply_damage_list target damage_list
  else ret target.

(** The fresh copy of a template made at the start of each iteration. *)
Definition fresh_copy (u : Unit) : Unit :=
  Unit_init (name u) (models u) (wounds_per_model u) (save u) (ward_save u)
            (ethereal u) (beacon_of_protection u) (weapons u) (has_leader u)
            true.

Record SimState : Type := mkSimState {
  attacker_wounds_remaining : list Z;
  defender_wounds_remaining : list Z;
  inverted_fights : Z
}.

(** [order_roll < order_inversion_probability]. *)
Definition Qltb (x y : Q) : bool := negb (Qle_bool y x).

(** The body of [for _ in range(iterations)]. *)
Definition simulation_step (attacker defender : Unit)
    (order_inversion_probability : Q)
    (attacker_hit_modifier attacker_wound_modifier
     defender_hit_modifier defender_wound_modifier : Z)
    (st : SimState) : M SimState :=
  let att_copy := fresh_copy attacker in
  let def_copy := fresh_copy defender in
  order_roll <- np_random_random ;;
  if Qltb order_roll order_inversion_probability then
    att_copy' <- strike def_copy att_copy
                        defender_hit_modifier defender_wound_modifier ;;
    def_copy' <- strike att_copy' def_copy
                        attacker_hit_modifier attacker_wound_modifier ;;
    ret {| attacker_wounds_remaining :=
             attacker_wounds_remaining st ++ [total_wounds att_copy'];
           defender_wounds_remaining :=
             defender_wounds_remaining st ++ [total_wounds def_copy'];
           inverted_fights := inverted_fights st + 1 |}
  else
    def_copy' <- strike att_copy def_copy
                        attacker_hit_modifier attacker_wound_modifier ;;
    att_copy' <- strike def_copy' att_copy
                        defender_hit_modifier defender_wound_modifier ;;
    ret {| attacker_wounds_remaining :=
             attacker_wounds_remaining st ++ [total_wounds att_copy'];
           defender_wounds_remaining :=
             defender_wounds_remaining st ++ [total_wounds def_copy'];
           inverted_fights := inverted_fights st |}.

Fixpoint simulation_loop (attacker defender : Unit)
    (order_inversion_probability : Q)
    (attacker_hit_modifier attacker_wound_modifier
     defender_hit_modifier defender_wound_modifier : Z)
    (n : nat) (st : SimState) : M SimState :=
  match n with
  | O => ret st
  | S n' =>
    st' <- simulation_step attacker defender order_inversion_probability
             attacker_hit_modifier attacker_wound_modifier
             defender_hit_modifier defender_wound_modifier st ;;
    simulation_loop attacker defender order_inversion_probability
      attacker_hit_modifier attacker_wound_modifier
      defender_hit_modifier defender_wound_modifier n' st'
  end.

(** [np.mean] as an exact rational; [None] stands for the [nan] of an
    empty list.  The rounding to a float is not modelled. *)
Definition np_mean (l : list Z) : option Q :=
  match l with
  | [] => None
  | _ :: _ => Some (Qmake (fold_right Z.add 0 l) (Pos.of_nat (List.length l)))
  end.

(** The lists and the counter at the end of the loop. *)
Definition combat_samples (attacker defender : Unit)
    (order_inversion_probability : Q) (iterations : Z)
    (attacker_hit_modifier attacker_wound_modifier
     defender_hit_modifier defender_wound_modifier : Z) : M SimState :=
  simulation_loop attacker defender order_inversion_probability
    attacker_hit_modifier attacker_wound_modifier
    defender_hit_modifier defender_wound_modifier
    (Z.to_nat iterations)
    {| attacker_wounds_remaining := [];
       defender_wounds_remaining := [];
       inverted_fights := 0 |}.

(** [combat_simulation]: the two means and [inverted_fights]. *)
Definition combat_simulation (attacker defender : Unit)
    (order_inversion_probability : Q) (iterations : Z)
    (attacker_hit_modifier attacker_wound_modifier
     defender_hit_modifier defender_wound_modifier : Z)
  : M (option Q * option Q * Z) :=
  st <- combat_samples attacker defender order_inversion_probability
          iterations attacker_hit_modifier attacker_wound_modifier
          defender_hit_modifier defender_wound_modifier ;;
  ret (np_mean (attacker_wounds_remaining st),
       np_mean (defender_wounds_remaining st),
       inverted_fights st).

(** ** Vocabulary of the statements *)

(** The value of a run, without the world. *)
Definition value_of {A} (r : Res A) : PyError + A :=
  match r with
  | Ok a _ => inr a
  | Raise e => inl e
  end.

Definition hits_of {critical_count : bool}
  : Rolled critical_count -> Z :=
  match critical_count with
  | true => fun r => fst r
  | false => fun r => r
  end.

Definition crits_of {critical_count : bool}
  : Rolled critical_count -> option Z :=
  match critical_count with
  | true => fun r => Some (snd r)
  | false => fun _ => None
  end.

(** The generator a call of [roll_dice] draws from. *)
Definition generator_for (rng : option Generator) (w : World) : Generator :=
  match rng with
  | Some g => g
  | None => spawned w
  end.

(** The faces of the [n] dice thrown by the next [roll_dice] call of the
    program in world [w]. *)
Definition next_dice (w : World) (n : Z) : list Z :=
  draws (spawned w) 1 7 (Z.to_nat n).

Definition count_below (target : Z) (rolls : list Z) : Z :=
  np_sum (map (fun r => r <? target) rolls).

Definition count_at_least (target : Z) (rolls : list Z) : Z :=
  np_sum (map (fun r => target <=? r) rolls).

(** The dice that reach [low] and stay below [high]. *)
Definition count_between (low high : Z) (rolls : list Z) : Z :=
  np_sum (map (fun r => andb (low <=? r) (r <? high)) rolls).

(** A sequence of [take_damage] calls on one unit. *)
Record DamageCall : Type := mkDamageCall {
  call_damage : Z;
  call_rend : Z;
  call_mortal : bool;
  call_ward_ignore : bool
}.

Fixpoint take_damage_calls (self : Unit) (calls : list DamageCall) : M Unit :=
  match calls with
  | [] => ret self
  | c :: rest =>
    '(_, self') <- take_damage self (call_damage c) (call_rend c)
                               (call_mortal c) (call_ward_ignore c) ;;
    take_damage_calls self' rest
  end.

(** [take_damage] without lines 73-74. *)
Definition take_damage_skip_ward (self : Unit) (damage rend : Z)
    (mortal : bool) : M (Z * Unit) :=
  wounds_through_save <- save_stage self damage rend mortal ;;
  let wounds_through_save := beacon_stage self wounds_through_save in
  self' <- apply_wounds self wounds_through_save ;;
  ret (wounds_through_save, self').

(** The invariant of a unit between [take_damage] calls: the alive flag
    mirrors the model count; a unit without models has no health left; with
    a negative per-model health (nothing in the program excludes it) the
    health stays at or below it, and the unit keeps its models. *)
Definition consistent (u : Unit) : Prop :=
  (unit_alive u = false <-> models u = 0)
  /\ (0 < wounds_per_model u -> models u = 0 -> total_wounds u <= 0)
  /\ (wounds_per_model u < 0 ->
      total_wounds u <= wounds_per_model u /\ 0 < models u).

(** The first [n] floats that [np.random.random()] will return. *)
Definition order_rolls (g : Generator) (n : nat) : list Q :=
  map (fun i => Qmake (stream g (cursor g + i) mod 2 ^ 53) (2 ^ 53))
      (seq 0 n).

(** How many of them are below [p]. *)
Definition inversions (g : Generator) (p : Q) (n : nat) : Z :=
  np_sum (map (fun r => Qltb r p) (order_rolls g n)).

(** A computation that leaves the process-wide generator alone. *)
Definition keeps_legacy {A} (m : M A) : Prop :=
  forall w a w', m w = Ok a w' -> legacy w' = legacy w.

(** Two worlds hold the same randomness: the process-wide generators will
    return the same outputs, and so will the generators that the system
    will seed, one after the other. *)
Definition same_order_rolls (w1 w2 : World) : Prop :=
  forall i, stream (legacy w1) (cursor (legacy w1) + i)
            = stream (legacy w2) (cursor (legacy w2) + i).

Definition same_dice (w1 w2 : World) : Prop :=
  forall k i, os_entropy w1 (os_calls w1 + k) i
              = os_entropy w2 (os_calls w2 + k) i.

Definition same_randomness (w1 w2 : World) : Prop :=
  same_order_rolls w1 w2 /\ same_dice w1 w2.

(** The outcomes of one computation in two worlds agree, and leave worlds
    that hold the same randomness. *)
Definition agree {A} (r1 r2 : Res A) : Prop :=
  match r1, r2 with
  | Ok a1 w1, Ok a2 w2 => a1 = a2 /\ same_randomness w1 w2
  | Raise e1, Raise e2 => e1 = e2
  | _, _ => False
  end.

Definition deterministic {A} (m : M A) : Prop :=
  forall w1 w2, same_randomness w1 w2 -> agree (m w1) (m w2).

(** Configurations on which no roll is asked for a negative count: counts
    and damages are non-negative, and a weapon whose crits deal mortal
    damage has its critical threshold at or above the effective hit
    target. *)
Definition weapon_ok (hit_modifier : Z) (weapon : Weapon) : Prop :=
  0 <= attacks weapon
  /\ 0 <= damage weapon
  /\ (crit_explode weapon = false -> crit_mortals weapon = true ->
      to_hit weapon - hit_modifier <= crit_threshold weapon).

Definition can_strike (hit_modifier : Z) (u : Unit) : Prop :=
  0 <= models u
  /\ exists ws, weapons u = Some ws /\ Forall (weapon_ok hit_modifier) ws.

Definition template_ok (hit_modifier : Z) (u : Unit) : Prop :=
  can_strike hit_modifier u /\ wounds_per_model u <> 0.

Definition nonneg_damage (e : DamageEvent) : Prop := 0 <= fst (fst e).


(** The fields that [take_damage] has no business with. *)
Definition same_profile (u u' : Unit) : Prop :=
  name u' = name u
  /\ wounds_per_model u' = wounds_per_model u
  /\ save u' = save u
  /\ ward_save u' = ward_save u
  /\ ethereal u' = ethereal u
  /\ beacon_of_protection u' = beacon_of_protection u
  /\ weapons u' = weapons u
  /\ has_leader u' = has_leader u.

(** The tuples a weapon can add to the damage list. *)
Definition mortal_events (weapon : Weapon) (crits : Z) : list DamageEvent :=
  if 0 <? crits then [(crits * damage weapon, 0, "mortal"%string)] else [].

Definition normal_events (weapon : Weapon) (wounds : Z) : list DamageEvent :=
  if 0 <? wounds
  then [(wounds * damage weapon, rend weapon, "normal"%string)] else [].






(** A unit without health left is marked dead. *)
Definition dead_when_spent (u : Unit) : Prop :=
  total_wounds u <= 0 -> unit_alive u = false.

(** A run with the two sides exchanged: the lists change places and the
    trials counted as inverted are those that were not. *)
Definition mirror_run (n : Z) (r : Res SimState) : Res SimState :=
  match r with
  | Ok st w =>
    Ok {| attacker_wounds_remaining := defender_wounds_remaining st;
          defender_wounds_remaining := attacker_wounds_remaining st;
          inverted_fights := Z.max 0 n - inverted_fights st |} w
  | Raise e => Raise e
  end.

(** ** The page classifier of [src/global_statistics/01_pdf_opener.py]

    The document that [fitz.open] returns is the list of the texts of its
    pages ([doc[page_num].get_text()]); whether
    [re.search(unit_pattern, text)] finds a match is a parameter. *)

Module PdfOpener.

Section Classifier.

Variable re_search : string -> bool.

(** The loop [for page_num in range(len(doc))] from [page_num] on, with
    the two lists it appends to. *)
Fixpoint classify_pages (texts : list string) (page_num : nat)
    (units delete_pages : list nat) : list nat * list nat :=
  match texts with
  | [] => (units, delete_pages)
  | text :: rest =>
    if re_search text
    then classify_pages rest (S page_num) (units ++ [page_num]) delete_pages
    else classify_pages rest (S page_num) units (delete_pages ++ [page_num])
  end.

(** [page_classifier] returns [units] alone. *)
Definition page_classifier (doc : list string) : list nat :=
  fst (classify_pages doc 0 [] []).

(** The list [delete_pages] at the end of the loop, which is dropped. *)
Definition deleted_pages (doc : list string) : list nat :=
  snd (classify_pages doc 0 [] []).

(** The numbers, counted from [k], of the texts on which the search gives
    [b]. *)
Fixpoint pages_where (b : bool) (texts : list string) (k : nat) : list nat :=
  match texts with
  | [] => []
  | text :: rest =>
    if Bool.eqb (re_search text) b
    then k :: pages_where b rest (S k)
    else pages_where b rest (S k)
  end.

End Classifier.

End PdfOpener.

(** ** Concrete inputs

    The weapons and units of the example block of the source (lines
    230-259), and worlds whose generators all repeat one raw output. *)

Module Scenario.

Definition lance := mkWeapon "Cursed Lance" 3 3 3 2 1 false 6 false false.
Definition hooves := mkWeapon "Hooves" 2 5 3 0 1 true 6 false false.
Definition impact := mkWeapon "Impact" 1 3 1 0 1 false 3 true false.
Definition dawn_lance := mkWeapon "Dawn Lance" 3 3 4 1 2 false 6 true false.
Definition dawn_hooves := mkWeapon "Hooves" 2 5 3 0 1 true 6 false false.
Definition pike := mkWeapon "Pike" 2 3 4 1 1 false 6 true false.
Definition blades := mkWeapon "Blades" 3 3 4 1 1 false 6 true false.

Definition chaos_knights :=
  Unit_init "Chaos Knight" 10 4 3 7 false false (Some [lance; hooves])
            true true.
Definition dawnriders :=
  Unit_init "Dawnrider" 10 3 3 5 false false
            (Some [dawn_lance; dawn_hooves; impact]) true true.
Definition base_wardens :=
  Unit_init "Warden" 20 1 4 7 false false (Some [pike]) true true.
Definition ward_wardens :=
  Unit_init "Warden" 20 1 4 5 false false (Some [pike]) true true.
Definition mega_bladelords :=
  Unit_init "Bladelord" 10 2 4 5 true true (Some [blades]) true true.

(** Every generator of the system returns [raw] for ever (every die shows
    [1 + raw mod 6]); the process-wide generator returns [order]. *)
Definition constant_world (raw order : Z) : World :=
  {| os_entropy := fun _ _ => raw;
     os_calls := 0;
     legacy := {| stream := fun _ => order; cursor := 0 |} |}.

End Scenario.

(** ** The dice engine *)

Section DiceEngine.

Lemma np_sum_bounds (bs : list bool) :
  0 <= np_sum bs <= Z.of_nat (List.length bs).
Proof.
  induction bs as [|b bs IH]; simpl List.length; simpl np_sum.
  - lia.
  - destruct b; lia.
Qed.

Lemma np_sum_all_true (bs : list bool) :
  Forall (fun b => b = true) bs -> np_sum bs = Z.of_nat (List.length bs).
Proof.
  induction 1 as [|b bs Hb _ IH]; simpl List.length; simpl np_sum.
  - reflexivity.
  - rewrite Hb, IH. lia.
Qed.

Lemma np_sum_map_le {A} (p q : A -> bool) (l : list A) :
  (forall x, In x l -> p x = true -> q x = true) ->
  np_sum (map p l) <= np_sum (map q l).
Proof.
  induction l as [|x l IH]; intros H; simpl.
  - lia.
  - assert (IH' : np_sum (map p l) <= np_sum (map q l))
      by (apply IH; intros y Hy; apply H; now right).
    destruct (p x) eqn:Hp.
    + rewrite (H x (or_introl eq_refl) Hp). lia.
    + destruct (q x); lia.
Qed.

Lemma draws_length g low high n : List.length (draws g low high n) = n.
Proof. unfold draws. now rewrite length_map, length_seq. Qed.

Lemma dice_faces g n : Forall (fun r => 1 <= r <= 6) (draws g 1 7 n).
Proof.
  unfold draws. apply Forall_forall. intros r Hr.
  apply in_map_iff in Hr. destruct Hr as [i [<- _]].
  pose proof (Z.mod_pos_bound (stream g (cursor g + i)) (7 - 1)). lia.
Qed.

Lemma advance_0 g : advance g 0 = g.
Proof. destruct g as [s c]. unfold advance. simpl. now rewrite Nat.add_0_r. Qed.

Lemma integers_nonneg g low high size :
  0 <= size ->
  integers g low high size
  = inr (draws g low high (Z.to_nat size), advance g (Z.to_nat size)).
Proof.
  intros H. unfold integers.
  destruct (size <? 0) eqn:E; [apply Z.ltb_lt in E; lia | reflexivity].
Qed.

Lemma integers_negative g low high size :
  size < 0 -> integers g low high size = inl ValueError.
Proof. intros H. unfold integers. apply Z.ltb_lt in H. now rewrite H. Qed.

Lemma count_below_bounds t l : 0 <= count_below t l <= Z.of_nat (List.length l).
Proof.
  unfold count_below.
  pose proof (np_sum_bounds (map (fun r => r <? t) l)) as H.
  now rewrite length_map in H.
Qed.

Lemma count_at_least_bounds t l :
  0 <= count_at_least t l <= Z.of_nat (List.length l).
Proof.
  unfold count_at_least.
  pose proof (np_sum_bounds (map (fun r => t <=? r) l)) as H.
  now rewrite length_map in H.
Qed.

(** Crits are hits when the critical threshold is not below the target. *)
Lemma crits_le_hits target threshold l :
  target <= threshold -> count_at_least threshold l <= count_at_least target l.
Proof.
  intros H. unfold count_at_least. apply np_sum_map_le.
  intros x _ Hx. apply Z.leb_le in Hx. apply Z.leb_le. lia.
Qed.

(** A die is always below 7 and more. *)
Lemma count_below_all t g n :
  6 < t -> count_below t (draws g 1 7 n) = Z.of_nat n.
Proof.
  intros H. unfold count_below.
  rewrite np_sum_all_true.
  - now rewrite length_map, draws_length.
  - apply Forall_map. eapply Forall_impl; [|apply dice_faces].
    simpl. intros r Hr. apply Z.ltb_lt. lia.
Qed.

End DiceEngine.

Section RollDice.

Lemma as_RollDirection_below : as_RollDirection (DirStr "below") = Some BELOW.
Proof. reflexivity. Qed.

Lemma as_RollDirection_match : as_RollDirection (DirStr "match") = Some MATCH.
Proof. reflexivity. Qed.

Lemma roll_dice_below n t w :
  0 <= n ->
  roll_dice n t None (DirStr "below") false 6 w
  = Ok (count_below t (next_dice w n)) (after_spawn w).
Proof.
  intros H. unfold roll_dice, bind, default_rng, roll_dice_on.
  rewrite as_RollDirection_below, (integers_nonneg _ _ _ _ H). reflexivity.
Qed.

Lemma roll_dice_match n t w :
  0 <= n ->
  roll_dice n t None (DirStr "match") false 6 w
  = Ok (count_at_least t (next_dice w n)) (after_spawn w).
Proof.
  intros H. unfold roll_dice, bind, default_rng, roll_dice_on.
  rewrite as_RollDirection_match, (integers_nonneg _ _ _ _ H). reflexivity.
Qed.

Lemma roll_dice_match_crits n t thr w :
  0 <= n ->
  roll_dice n t None (DirStr "match") true thr w
  = Ok (count_at_least t (next_dice w n), count_at_least thr (next_dice w n))
       (after_spawn w).
Proof.
  intros H. unfold roll_dice, bind, default_rng, roll_dice_on.
  rewrite as_RollDirection_match, (integers_nonneg _ _ _ _ H). reflexivity.
Qed.

Lemma roll_dice_negative n t rng direction cc thr w :
  n < 0 -> roll_dice n t rng direction cc thr w = Raise ValueError.
Proof.
  intros H. unfold roll_dice, bind, roll_dice_on.
  destruct rng; simpl; destruct (as_RollDirection direction);
    try reflexivity; now rewrite (integers_negative _ _ _ _ H).
Qed.

Lemma next_dice_length w n : 0 <= n -> Z.of_nat (List.length (next_dice w n)) = n.
Proof. intros H. unfold next_dice. rewrite draws_length. lia. Qed.

(** The ward roll against 7 and more lets every wound through. *)
Lemma count_below_next_dice t w n :
  6 < t -> 0 <= n -> count_below t (next_dice w n) = n.
Proof.
  intros Ht Hn. unfold next_dice. rewrite (count_below_all _ _ _ Ht). lia.
Qed.

End RollDice.

(** C3. For every count >= 0, every target, every direction (a member of
    [RollDirection] or a string that names one), with or without the
    critical count, and with or without a generator passed in, [roll_dice]
    returns; the hit count lies in [0, count], the crit count is returned
    exactly when requested and lies in [0, count]; for count = 0 both are 0
    and the generator drawn from is left where it was: no die is drawn. *)
Theorem roll_dice_counts_in_range
    (num_dice target : Z) (rng : option Generator) (direction : DirectionArg)
    (d : RollDirection) (critical_count : bool) (critical_threshold : Z)
    (w : World) :
  0 <= num_dice ->
  as_RollDirection direction = Some d ->
  exists (r : Rolled critical_count) (g' : Generator) (w' : World),
    roll_dice_on (generator_for rng w) num_dice target direction
                 critical_count critical_threshold = inr (r, g')
    /\ roll_dice num_dice target rng direction critical_count
                 critical_threshold w = Ok r w'
    /\ 0 <= hits_of r <= num_dice
    /\ (if critical_count
        then exists c, crits_of r = Some c /\ 0 <= c <= num_dice
        else crits_of r = None)
    /\ (num_dice = 0 ->
        hits_of r = 0
        /\ (forall c, crits_of r = Some c -> c = 0)
        /\ g' = generator_for rng w).
Proof.
  intros Hn Hd.
  set (g := generator_for rng w).
  set (rolls := draws g 1 7 (Z.to_nat num_dice)).
  assert (Hlen : Z.of_nat (List.length rolls) = num_dice)
    by (unfold rolls; rewrite draws_length; lia).
  assert (Hon : forall cc : bool,
            roll_dice_on g num_dice target direction cc critical_threshold
            = inr (match cc return Rolled cc with
                   | true =>
                     (match d with
                      | MATCH => np_sum (map (fun r => target <=? r) rolls)
                      | ABOVE => np_sum (map (fun r => target <? r) rolls)
                      | BELOW => np_sum (map (fun r => r <? target) rolls)
                      end,
                      np_sum (map (fun r => critical_threshold <=? r) rolls))
                   | false =>
                     match d with
                     | MATCH => np_sum (map (fun r => target <=? r) rolls)
                     | ABOVE => np_sum (map (fun r => target <? r) rolls)
                     | BELOW => np_sum (map (fun r => r <? target) rolls)
                     end
                   end, advance g (Z.to_nat num_dice))).
  { intros cc. unfold roll_dice_on.
    rewrite Hd, (integers_nonneg _ _ _ _ Hn). now destruct cc. }
  assert (Hb : forall p : Z -> bool, 0 <= np_sum (map p rolls) <= num_dice).
  { intros p. pose proof (np_sum_bounds (map p rolls)) as H.
    rewrite length_map in H. lia. }
  assert (Hz : forall p : Z -> bool, num_dice = 0 -> np_sum (map p rolls) = 0).
  { intros p H0. pose proof (Hb p). lia. }
  eexists. exists (advance g (Z.to_nat num_dice)).
  exists (match rng with None => after_spawn w | Some _ => w end).
  split; [apply Hon|].
  split.
  { unfold roll_dice, bind.
    destruct rng as [g0|]; simpl; fold g;
      change (generator_for _ w) with g in Hon; rewrite Hon; reflexivity. }
  destruct critical_count; simpl.
  - split; [destruct d; apply Hb|].
    split; [eexists; split; [reflexivity|apply Hb]|].
    intros H0. split; [destruct d; now apply Hz|].
    split.
    + intros c Hc. injection Hc as <-. now apply Hz.
    + rewrite H0. exact (advance_0 g).
  - split; [destruct d; apply Hb|].
    split; [reflexivity|].
    intros H0. split; [destruct d; now apply Hz|].
    split; [discriminate|]. rewrite H0. exact (advance_0 g).
Qed.

(** The claim at 5 dice against 3, read by a string, crits requested. *)
Lemma roll_dice_counts_in_range_witness :
  exists (r : Rolled true) (g' : Generator) (w' : World),
    roll_dice_on (generator_for None (mkWorld (fun _ i => Z.of_nat i) 0
                                              (mkGenerator (fun _ => 0) 0)))
                 5 3 (DirStr "Match") true 6 = inr (r, g')
    /\ roll_dice 5 3 None (DirStr "Match") true 6
                 (mkWorld (fun _ i => Z.of_nat i) 0
                          (mkGenerator (fun _ => 0) 0)) = Ok r w'
    /\ 0 <= hits_of r <= 5
    /\ (exists c, crits_of r = Some c /\ 0 <= c <= 5)
    /\ (5 = 0 ->
        hits_of r = 0
        /\ (forall c, crits_of r = Some c -> c = 0)
        /\ g' = generator_for None (mkWorld (fun _ i => Z.of_nat i) 0
                                            (mkGenerator (fun _ => 0) 0))).
Proof.
  apply (roll_dice_counts_in_range 5 3 None (DirStr "Match") MATCH true 6
           (mkWorld (fun _ i => Z.of_nat i) 0 (mkGenerator (fun _ => 0) 0))).
  - lia.
  - reflexivity.
Defined.

(** ** Damage intake *)

Section TakeDamage.

Variable self : Unit.

Lemma apply_wounds_ok x w :
  wounds_per_model self <> 0 ->
  apply_wounds self x w = Ok (after_wounds self x) w.
Proof.
  intros H. unfold apply_wounds.
  destruct (wounds_per_model self =? 0) eqn:E;
    [apply Z.eqb_eq in E; contradiction | reflexivity].
Qed.

Lemma apply_wounds_inv x w u w' :
  apply_wounds self x w = Ok u w' ->
  wounds_per_model self <> 0 /\ u = after_wounds self x /\ w' = w.
Proof.
  unfold apply_wounds, raise, ret.
  destruct (wounds_per_model self =? 0) eqn:E; [discriminate|].
  intros H. injection H as <- <-. apply Z.eqb_neq in E. auto.
Qed.

Lemma beacon_stage_bounds x : 0 <= x -> 0 <= beacon_stage self x <= x.
Proof. unfold beacon_stage. destruct (beacon_of_protection self); lia. Qed.

(** The save stage of a non-negative amount returns a part of it. *)
Lemma save_stage_returns damage rend mortal w :
  0 <= damage ->
  exists x w', save_stage self damage rend mortal w = Ok x w'
               /\ 0 <= x <= damage.
Proof.
  intros H. unfold save_stage.
  destruct mortal; [exists damage, w; split; [reflexivity|lia]|].
  pose proof (next_dice_length w damage H) as Hl.
  destruct (ethereal self); rewrite (roll_dice_below _ _ _ H);
    eexists; eexists; (split; [reflexivity|]);
    match goal with |- context [count_below ?t ?l] =>
      pose proof (count_below_bounds t l) end; lia.
Qed.

Lemma ward_stage_returns x ward_ignore w :
  0 <= x ->
  exists y w', ward_stage self x ward_ignore w = Ok y w' /\ 0 <= y <= x.
Proof.
  intros H. unfold ward_stage.
  destruct (truthy (ward_save self) && negb ward_ignore)%bool.
  - rewrite (roll_dice_below _ _ _ H). eexists; eexists.
    split; [reflexivity|].
    pose proof (next_dice_length w x H).
    pose proof (count_below_bounds (ward_save self) (next_dice w x)). lia.
  - exists x, w. split; [reflexivity|lia].
Qed.

(** [take_damage] of a non-negative amount returns whenever the division
    by [wounds_per_model] does. *)
Lemma take_damage_returns damage rend mortal ward_ignore w :
  0 <= damage -> wounds_per_model self <> 0 ->
  exists r w',
    take_damage self damage rend mortal ward_ignore w
    = Ok (r, after_wounds self r) w'
    /\ 0 <= r <= damage.
Proof.
  intros Hd Hw. unfold take_damage, bind.
  destruct (save_stage_returns damage rend mortal w Hd) as (x & w1 & -> & Hx).
  destruct (ward_stage_returns x ward_ignore w1 (proj1 Hx))
    as (y & w2 & -> & Hy).
  rewrite (apply_wounds_ok _ _ Hw).
  eexists; eexists. split; [reflexivity|].
  pose proof (beacon_stage_bounds y (proj1 Hy)). lia.
Qed.

(** What a returned call has done. *)
Lemma take_damage_inv damage rend mortal ward_ignore w r self' w' :
  0 <= damage ->
  take_damage self damage rend mortal ward_ignore w = Ok (r, self') w' ->
  wounds_per_model self <> 0 /\ self' = after_wounds self r
  /\ 0 <= r <= damage.
Proof.
  intros Hd. unfold take_damage, bind.
  destruct (save_stage_returns damage rend mortal w Hd) as (x & w1 & -> & Hx).
  destruct (ward_stage_returns x ward_ignore w1 (proj1 Hx))
    as (y & w2 & -> & Hy).
  destruct (apply_wounds self (beacon_stage self y) w2) as [u w3|e] eqn:E;
    [|discriminate].
  apply apply_wounds_inv in E. destruct E as (Hw & -> & ->).
  unfold ret. intros H. injection H as <- <- <-.
  pose proof (beacon_stage_bounds y (proj1 Hy)).
  repeat split; try assumption; lia.
Qed.

End TakeDamage.

(** C1, as amended.  For a unit without the damage-reduction aura and with
    a non-zero per-model health, [take_damage] of N >= 0 with [mortal] set
    and [ward_ignore] unset makes no save roll: the save threshold and the
    rend play no part.  The ward roll is made whenever the ward threshold is
    non-zero, on N dice of one fresh generator, and the call returns the
    number of them below the ward threshold; that is exactly N when the
    threshold is above 6 (the default 7) and also when it is 0 (no roll). *)
Theorem mortal_damage_unsaved (self : Unit) (N rend : Z) (w : World) :
  beacon_of_protection self = false ->
  0 <= N ->
  wounds_per_model self <> 0 ->
  let r := if ward_save self =? 0 then N
           else count_below (ward_save self) (next_dice w N) in
  take_damage self N rend true false w
  = Ok (r, after_wounds self r)
       (if ward_save self =? 0 then w else after_spawn w)
  /\ r <= N
  /\ (ward_save self = 0 \/ 6 < ward_save self -> r = N).
Proof.
  intros Hb HN Hw r.
  assert (Hr : r <= N /\ (ward_save self = 0 \/ 6 < ward_save self -> r = N)).
  { subst r. destruct (ward_save self =? 0) eqn:E.
    - split; [lia|reflexivity].
    - apply Z.eqb_neq in E. split.
      + pose proof (count_below_bounds (ward_save self) (next_dice w N)).
        pose proof (next_dice_length w N HN). lia.
      + intros [H|H]; [contradiction|]. now apply count_below_next_dice. }
  split; [|exact Hr].
  unfold take_damage, bind, save_stage, ward_stage, ret, truthy. simpl.
  subst r. destruct (ward_save self =? 0) eqn:E; simpl.
  - unfold beacon_stage. rewrite Hb. now rewrite (apply_wounds_ok _ _ _ Hw).
  - rewrite (roll_dice_below _ _ _ HN). unfold beacon_stage. rewrite Hb.
    now rewrite (apply_wounds_ok _ _ _ Hw).
Qed.

(** The amended claim on the wardens without a ward, 7 mortal wounds. *)
Lemma mortal_damage_unsaved_witness :
  take_damage Scenario.base_wardens 7 0 true false
              (Scenario.constant_world 2 0)
  = Ok (count_below 7 (next_dice (Scenario.constant_world 2 0) 7),
        after_wounds Scenario.base_wardens
          (count_below 7 (next_dice (Scenario.constant_world 2 0) 7)))
       (after_spawn (Scenario.constant_world 2 0))
  /\ count_below 7 (next_dice (Scenario.constant_world 2 0) 7) <= 7
  /\ (7 = 0 \/ 6 < 7 ->
      count_below 7 (next_dice (Scenario.constant_world 2 0) 7) = 7).
Proof.
  apply (mortal_damage_unsaved Scenario.base_wardens 7 0
           (Scenario.constant_world 2 0)).
  - reflexivity.
  - lia.
  - simpl. lia.
Defined.

(** C1 fails as stated: the wardens with a ward of 5 take one mortal wound,
    the ward die shows 6, and nothing gets through; a ward roll was made. *)
Lemma mortal_damage_warded_counterexample :
  beacon_of_protection Scenario.ward_wardens = false
  /\ take_damage Scenario.ward_wardens 1 0 true false
                 (Scenario.constant_world 5 0)
     = Ok (0, Scenario.ward_wardens)
          (after_spawn (Scenario.constant_world 5 0))
  /\ next_dice (Scenario.constant_world 5 0) 1 = [6]
  /\ 0 <> 1.
Proof. repeat split; try reflexivity. discriminate. Qed.

(** C6, as amended.  For a unit with a ward threshold in 1..6 and a non-zero
    per-model health, [take_damage] of N >= 0 with [mortal] set and
    [ward_ignore] unset bypasses save and rend (no save roll is made and the
    result does not depend on them) and rolls the ward on N dice, the full
    incoming amount.  Without the damage-reduction aura the returned amount
    is the number of ward dice below the ward threshold; with the aura it is
    that number less one, floored at 0.  It never exceeds N. *)
Theorem mortal_damage_ward_roll (self : Unit) (N rend : Z) (w : World) :
  1 <= ward_save self <= 6 ->
  0 <= N ->
  wounds_per_model self <> 0 ->
  let ward_dice := next_dice w N in
  let unwarded := count_below (ward_save self) ward_dice in
  let r := if beacon_of_protection self then Z.max 0 (unwarded - 1)
           else unwarded in
  Z.of_nat (List.length ward_dice) = N
  /\ take_damage self N rend true false w
     = Ok (r, after_wounds self r) (after_spawn w)
  /\ 0 <= r <= N.
Proof.
  intros Hward HN Hw ward_dice unwarded r.
  pose proof (next_dice_length w N HN) as Hl.
  pose proof (count_below_bounds (ward_save self) (next_dice w N)) as Hc.
  split; [exact Hl|]. split.
  - unfold take_damage, bind, save_stage, ward_stage, ret, truthy. simpl.
    destruct (ward_save self =? 0) eqn:E; [apply Z.eqb_eq in E; lia|]. simpl.
    rewrite (roll_dice_below _ _ _ HN).
    now rewrite (apply_wounds_ok _ _ _ Hw).
  - subst r unwarded ward_dice.
    destruct (beacon_of_protection self); lia.
Qed.

(** The amended claim on the warded wardens, 3 mortal wounds, dice of 4. *)
Lemma mortal_damage_ward_roll_witness :
  Z.of_nat (List.length (next_dice (Scenario.constant_world 3 0) 3)) = 3
  /\ take_damage Scenario.ward_wardens 3 1 true false
                 (Scenario.constant_world 3 0)
     = Ok (count_below 5 (next_dice (Scenario.constant_world 3 0) 3),
           after_wounds Scenario.ward_wardens
             (count_below 5 (next_dice (Scenario.constant_world 3 0) 3)))
          (after_spawn (Scenario.constant_world 3 0))
  /\ 0 <= count_below 5 (next_dice (Scenario.constant_world 3 0) 3) <= 3.
Proof.
  apply (mortal_damage_ward_roll Scenario.ward_wardens 3 1
           (Scenario.constant_world 3 0)).
  - simpl. lia.
  - lia.
  - simpl. lia.
Defined.

(** C6 fails as stated on a unit with the aura: the bladelords (ward 5,
    aura) take one mortal wound, the ward die shows 1 and is below 5, so
    the count of ward dice below the threshold is 1, yet 0 is returned. *)
Lemma mortal_damage_aura_counterexample :
  ward_save Scenario.mega_bladelords = 5
  /\ next_dice (Scenario.constant_world 0 0) 1 = [1]
  /\ count_below 5 (next_dice (Scenario.constant_world 0 0) 1) = 1
  /\ take_damage Scenario.mega_bladelords 1 0 true false
                 (Scenario.constant_world 0 0)
     = Ok (0, Scenario.mega_bladelords)
          (after_spawn (Scenario.constant_world 0 0))
  /\ 0 <> 1.
Proof. repeat split; try reflexivity. discriminate. Qed.

(** C9, as amended.  For a unit whose [ward_save] is the default 7 (and
    whose per-model health is not 0) and a call with [ward_ignore] unset
    whose damage is non-negative or which is not mortal, [take_damage] and
    the variant without the ward stage give the same outcome: the same
    exception, or the same returned amount and the same unit.  The ward
    roll is made (a generator is spent on it) and is the identity on the
    count, every face being below 7. *)
Theorem no_ward_sentinel_skips_ward
    (self : Unit) (damage rend : Z) (mortal : bool) (w : World) :
  ward_save self = 7 ->
  wounds_per_model self <> 0 ->
  0 <= damage \/ mortal = false ->
  value_of (take_damage self damage rend mortal false w)
  = value_of (take_damage_skip_ward self damage rend mortal w).
Proof.
  intros H7 Hw Hd.
  assert (Hward : forall x w1, 0 <= x ->
            ward_stage self x false w1 = Ok x (after_spawn w1)).
  { intros x w1 Hx. unfold ward_stage, truthy. rewrite H7. simpl.
    rewrite (roll_dice_below _ _ _ Hx).
    rewrite count_below_next_dice; [reflexivity|lia|exact Hx]. }
  unfold take_damage, take_damage_skip_ward.
  destruct (Z.le_gt_cases 0 damage) as [Hnn|Hneg].
  - unfold bind.
    destruct (save_stage_returns self damage rend mortal w Hnn)
      as (x & w1 & -> & Hx).
    rewrite (Hward x w1 (proj1 Hx)).
    now rewrite !(apply_wounds_ok _ _ _ Hw).
  - destruct Hd as [Hd| ->]; [lia|].
    assert (Hlt : damage < 0) by lia.
    unfold bind, save_stage.
    destruct (ethereal self);
      now rewrite (roll_dice_negative _ _ _ _ _ _ _ Hlt).
Qed.

(** The amended claim on the chaos knights: 6 wounds at rend 2. *)
Lemma no_ward_sentinel_skips_ward_witness :
  value_of (take_damage Scenario.chaos_knights 6 2 false false
                        (Scenario.constant_world 1 0))
  = value_of (take_damage_skip_ward Scenario.chaos_knights 6 2 false
                                    (Scenario.constant_world 1 0)).
Proof.
  apply (no_ward_sentinel_skips_ward Scenario.chaos_knights 6 2 false
           (Scenario.constant_world 1 0)).
  - reflexivity.
  - simpl. lia.
  - right. reflexivity.
Defined.

(** C9 fails as stated on a negative mortal amount: with the ward stage the
    ward roll is asked for -1 dice and raises; without it the call returns
    -1 and the health grows. *)
Lemma no_ward_sentinel_negative_counterexample :
  ward_save Scenario.base_wardens = 7
  /\ value_of (take_damage Scenario.base_wardens (-1) 0 true false
                           (Scenario.constant_world 0 0))
     = inl ValueError
  /\ value_of (take_damage_skip_ward Scenario.base_wardens (-1) 0 true
                                     (Scenario.constant_world 0 0))
     = inr (-1, after_wounds Scenario.base_wardens (-1))
  /\ total_wounds (after_wounds Scenario.base_wardens (-1)) = 21.
Proof. repeat split; reflexivity. Qed.

(** ** Health and model accounting *)

Section Accounting.

Lemma after_wounds_total u r :
  total_wounds (after_wounds u r) = total_wounds u - r.
Proof. reflexivity. Qed.

Lemma after_wounds_per_model u r :
  wounds_per_model (after_wounds u r) = wounds_per_model u.
Proof. reflexivity. Qed.

Lemma after_wounds_models_nonneg u r : 0 <= models (after_wounds u r).
Proof. unfold after_wounds. simpl. lia. Qed.

(** With a positive per-model health the models are gone exactly when the
    health is. *)
Lemma recount_zero_iff t d :
  0 < d ->
  (Z.max 0 (t / d + (if 0 <? t mod d then 1 else 0)) = 0 <-> t <= 0).
Proof.
  intros Hd.
  pose proof (Z.div_mod t d ltac:(lia)) as E.
  pose proof (Z.mod_pos_bound t d Hd) as B.
  destruct (0 <? t mod d) eqn:P;
    [apply Z.ltb_lt in P | apply Z.ltb_ge in P]; split; intros H; nia.
Qed.

(** With a negative per-model health and a health at or below it, a full
    model is always counted. *)
Lemma recount_negative t d :
  d < 0 -> t <= d ->
  0 < Z.max 0 (t / d + (if 0 <? t mod d then 1 else 0)).
Proof.
  intros Hd Ht.
  pose proof (Z.div_mod t d ltac:(lia)) as E.
  pose proof (Z.mod_neg_bound t d Hd) as B.
  destruct (0 <? t mod d) eqn:P;
    [apply Z.ltb_lt in P | apply Z.ltb_ge in P]; nia.
Qed.

Lemma Unit_init_consistent nm m wpm sv wd eth bp ws ld :
  1 <= m -> consistent (Unit_init nm m wpm sv wd eth bp ws ld true).
Proof.
  intros Hm. unfold consistent, Unit_init. simpl.
  split; [split; [discriminate | lia]|].
  split; [lia | nia].
Qed.

Lemma after_wounds_consistent u r :
  wounds_per_model u <> 0 -> 0 <= r ->
  consistent u -> consistent (after_wounds u r).
Proof.
  intros Hw Hr (Hiff & Hpos & Hneg).
  unfold consistent, after_wounds. simpl.
  set (t := total_wounds u - r).
  set (m' := Z.max 0 (t / wounds_per_model u
                      + (if 0 <? t mod wounds_per_model u then 1 else 0))).
  assert (Hm' : 0 <= m') by (subst m'; lia).
  destruct (Z.lt_trichotomy (wounds_per_model u) 0) as [Hd|[Hd|Hd]];
    [|contradiction|].
  - destruct (Hneg Hd) as [Ht Hm].
    assert (Hpos' : 0 < m') by (apply recount_negative; [assumption|lia]).
    assert (Ha : unit_alive u = true).
    { destruct (unit_alive u); [reflexivity|].
      pose proof (proj1 Hiff eq_refl). lia. }
    destruct (m' <=? 0) eqn:L; [apply Z.leb_le in L; lia|].
    split; [split; [congruence|lia]|].
    split; [lia|]. intros _. split; [lia|assumption].
  - pose proof (recount_zero_iff t _ Hd) as Hz. fold m' in Hz.
    split; [|split; [intros _; apply Hz | lia]].
    destruct (m' <=? 0) eqn:L;
      [apply Z.leb_le in L | apply Z.leb_gt in L].
    + split; [lia|reflexivity].
    + split; [|lia]. intros Ha.
      pose proof (Hpos Hd (proj1 Hiff Ha)).
      assert (t <= 0) by lia. apply Hz. assumption.
Qed.

Lemma take_damage_calls_consistent calls :
  Forall (fun c => 0 <= call_damage c) calls ->
  forall u w u' w',
    consistent u ->
    take_damage_calls u calls w = Ok u' w' ->
    consistent u'.
Proof.
  induction 1 as [|c calls Hc _ IH]; intros u w u' w' Hu Hrun.
  - injection Hrun as <- _. exact Hu.
  - simpl in Hrun. unfold bind in Hrun.
    destruct (take_damage u (call_damage c) (call_rend c) (call_mortal c)
                          (call_ward_ignore c) w) as [[r u1] w1|e] eqn:E;
      [|discriminate].
    apply take_damage_inv in E; [|exact Hc].
    destruct E as (Hw & -> & Hr).
    eapply IH; [|exact Hrun].
    apply after_wounds_consistent; [assumption|lia|assumption].
Qed.

Lemma take_damage_calls_return calls :
  Forall (fun c => 0 <= call_damage c) calls ->
  forall u w,
    wounds_per_model u <> 0 ->
    exists u' w', take_damage_calls u calls w = Ok u' w'.
Proof.
  induction 1 as [|c calls Hc _ IH]; intros u w Hw.
  - exists u, w. reflexivity.
  - simpl. unfold bind.
    destruct (take_damage_returns u (call_damage c) (call_rend c)
                (call_mortal c) (call_ward_ignore c) w Hc Hw)
      as (r & w1 & -> & _).
    apply IH. exact Hw.
Qed.

End Accounting.

(** C2, as amended.  For every unit and every [take_damage] call with a
    non-negative damage, a call that returns has taken from the health
    exactly the amount it returns, which lies between 0 and the damage: the
    health never grows.  The health itself is not floored: it stays
    non-negative exactly when the returned amount does not exceed it.  What
    is floored at 0 is the model count.  The call returns whenever the
    per-model health is not 0. *)
Theorem take_damage_health_monotone
    (self : Unit) (damage rend : Z) (mortal ward_ignore : bool) (w : World) :
  0 <= damage ->
  (wounds_per_model self <> 0 ->
   exists r self' w',
     take_damage self damage rend mortal ward_ignore w = Ok (r, self') w')
  /\ (forall r self' w',
        take_damage self damage rend mortal ward_ignore w = Ok (r, self') w' ->
        0 <= r <= damage
        /\ total_wounds self' = total_wounds self - r
        /\ total_wounds self' <= total_wounds self
        /\ (0 <= total_wounds self' <-> r <= total_wounds self)
        /\ 0 <= models self').
Proof.
  intros Hd. split.
  - intros Hw.
    destruct (take_damage_returns self damage rend mortal ward_ignore w Hd Hw)
      as (r & w' & E & _).
    eauto.
  - intros r self' w' E.
    apply take_damage_inv in E; [|exact Hd].
    destruct E as (_ & -> & Hr).
    rewrite after_wounds_total.
    pose proof (after_wounds_models_nonneg self r).
    repeat split; lia.
Qed.

(** The amended claim on the chaos knights: 8 wounds at rend 2. *)
Lemma take_damage_health_monotone_witness :
  (wounds_per_model Scenario.chaos_knights <> 0 ->
   exists r self' w',
     take_damage Scenario.chaos_knights 8 2 false false
                 (Scenario.constant_world 4 0) = Ok (r, self') w')
  /\ (forall r self' w',
        take_damage Scenario.chaos_knights 8 2 false false
                    (Scenario.constant_world 4 0) = Ok (r, self') w' ->
        0 <= r <= 8
        /\ total_wounds self' = total_wounds Scenario.chaos_knights - r
        /\ total_wounds self' <= total_wounds Scenario.chaos_knights
        /\ (0 <= total_wounds self'
            <-> r <= total_wounds Scenario.chaos_knights)
        /\ 0 <= models self').
Proof.
  apply (take_damage_health_monotone Scenario.chaos_knights 8 2 false false
           (Scenario.constant_world 4 0)).
  lia.
Defined.

(** C2 fails as stated: the wardens (20 models of 1 wound, save 4, no
    ward) take 25 mortal wounds; all 25 get through and the health is left
    at -5. *)
Lemma take_damage_negative_health_counterexample :
  total_wounds Scenario.base_wardens = 20
  /\ exists self',
       take_damage Scenario.base_wardens 25 0 true false
                   (Scenario.constant_world 0 0)
       = Ok (25, self') (after_spawn (Scenario.constant_world 0 0))
       /\ total_wounds self' = -5
       /\ models self' = 0.
Proof.
  split; [reflexivity|].
  eexists. split; [reflexivity|]. split; reflexivity.
Qed.

(** C4.  A unit is constructed alive with at least one model and takes any
    sequence of [take_damage] calls of non-negative damage.  After the
    calls its alive flag is false if and only if its model count is 0; the
    sequence being arbitrary, this holds after every call.  The calls all
    return unless the per-model health is 0. *)
Theorem alive_iff_models
    (nm : string) (m wpm sv wd : Z) (eth bp : bool)
    (ws : option (list Weapon)) (ld : bool)
    (calls : list DamageCall) (w : World) :
  1 <= m ->
  Forall (fun c => 0 <= call_damage c) calls ->
  (wpm <> 0 ->
   exists u' w',
     take_damage_calls (Unit_init nm m wpm sv wd eth bp ws ld true) calls w
     = Ok u' w')
  /\ (forall u' w',
        take_damage_calls (Unit_init nm m wpm sv wd eth bp ws ld true) calls w
        = Ok u' w' ->
        (unit_alive u' = false <-> models u' = 0)).
Proof.
  intros Hm Hcalls. split.
  - intros Hw. apply take_damage_calls_return; assumption.
  - intros u' w' Hrun.
    apply (take_damage_calls_consistent calls Hcalls _ w u' w'
             (Unit_init_consistent nm m wpm sv wd eth bp ws ld Hm) Hrun).
Qed.

(** The claim on a unit of 2 models of 2 wounds: a mortal hit of 3, then a
    normal hit of 4 at rend 1. *)
Lemma alive_iff_models_witness :
  (2 <> 0 ->
   exists u' w',
     take_damage_calls
       (Unit_init "Guard" 2 2 4 7 false false None true true)
       [mkDamageCall 3 0 true false; mkDamageCall 4 1 false false]
       (Scenario.constant_world 0 0)
     = Ok u' w')
  /\ (forall u' w',
        take_damage_calls
          (Unit_init "Guard" 2 2 4 7 false false None true true)
          [mkDamageCall 3 0 true false; mkDamageCall 4 1 false false]
          (Scenario.constant_world 0 0)
        = Ok u' w' ->
        (unit_alive u' = false <-> models u' = 0)).
Proof.
  apply (alive_iff_models "Guard" 2 2 4 7 false false None true
           [mkDamageCall 3 0 true false; mkDamageCall 4 1 false false]
           (Scenario.constant_world 0 0)).
  - lia.
  - repeat constructor; simpl; lia.
Defined.

(** ** Attack resolution *)

Section DealDamage.

Lemma count_between_split low high l :
  low <= high ->
  count_at_least low l - count_at_least high l = count_between low high l.
Proof.
  intros H. unfold count_at_least, count_between.
  induction l as [|r l IH]; cbn [np_sum map]; [reflexivity|].
  destruct (low <=? r) eqn:A; destruct (high <=? r) eqn:B;
    destruct (r <? high) eqn:C; cbn [andb];
    try apply Z.leb_le in A; try apply Z.leb_gt in A;
    try apply Z.leb_le in B; try apply Z.leb_gt in B;
    try apply Z.ltb_lt in C; try apply Z.ltb_ge in C; lia.
Qed.

Variable self : Unit.
Variables hit_modifier wound_modifier : Z.
Variable weapon : Weapon.
Hypothesis not_explode : crit_explode weapon = false.
Hypothesis mortals : crit_mortals weapon = true.

(** The hit sequence of a weapon whose crits deal mortal damage. *)
Lemma hit_sequence_mortals damage_list w :
  0 <= weapon_attacks self weapon ->
  let hit_dice := next_dice w (weapon_attacks self weapon) in
  let hits := count_at_least (to_hit weapon - hit_modifier) hit_dice in
  let crits := count_at_least (crit_threshold weapon) hit_dice in
  hit_sequence self hit_modifier weapon damage_list w
  = Ok (hits - crits,
        if 0 <? crits
        then damage_list ++ [(crits * damage weapon, 0, "mortal"%string)]
        else damage_list)
       (after_spawn w).
Proof.
  intros Hn. unfold hit_sequence. rewrite not_explode, mortals.
  unfold bind. rewrite (roll_dice_match_crits _ _ _ _ Hn). reflexivity.
Qed.

Lemma hit_sequence_negative damage_list w :
  weapon_attacks self weapon < 0 ->
  hit_sequence self hit_modifier weapon damage_list w = Raise ValueError.
Proof.
  intros Hn. unfold hit_sequence. rewrite not_explode, mortals.
  unfold bind. now rewrite (roll_dice_negative _ _ _ _ _ _ _ Hn).
Qed.

(** The whole turn of such a weapon. *)
Lemma deal_damage_weapon_mortals damage_list w :
  0 <= weapon_attacks self weapon ->
  let hit_dice := next_dice w (weapon_attacks self weapon) in
  let hits := count_at_least (to_hit weapon - hit_modifier) hit_dice in
  let crits := count_at_least (crit_threshold weapon) hit_dice in
  let wound_dice := next_dice (after_spawn w) (hits - crits) in
  let wounds := count_at_least (to_wound weapon - wound_modifier) wound_dice in
  deal_damage_weapon self hit_modifier wound_modifier weapon damage_list w
  = (if hits - crits <? 0 then Raise ValueError
     else Ok (damage_list
              ++ (if 0 <? crits
                  then [(crits * damage weapon, 0, "mortal"%string)]
                  else [])
              ++ (if 0 <? wounds
                  then [(wounds * damage weapon, rend weapon,
                         "normal"%string)]
                  else []))
             (after_spawn (after_spawn w))).
Proof.
  intros Hn hit_dice hits crits wound_dice wounds.
  unfold deal_damage_weapon. unfold bind at 1.
  rewrite (hit_sequence_mortals damage_list w Hn).
  fold hit_dice. fold hits. fold crits. unfold bind.
  destruct (hits - crits <? 0) eqn:L.
  - apply Z.ltb_lt in L. now rewrite (roll_dice_negative _ _ _ _ _ _ _ L).
  - apply Z.ltb_ge in L. rewrite (roll_dice_match _ _ _ L).
    fold wound_dice. fold wounds. unfold ret. f_equal.
    destruct (0 <? crits); destruct (0 <? wounds);
      rewrite <- ?app_assoc, ?app_nil_r; reflexivity.
Qed.

End DealDamage.

(** C5.  When the loop of [deal_damage] reaches a weapon whose crits deal
    mortal damage (and do not explode): the hit roll gives [hits] and
    [crits] from one batch of dice; if [crits] is positive exactly one tuple
    (crits * damage, 0, "mortal") is appended; the wound roll is made on
    [hits - crits] dice, so a crit takes no part in it; if it wounds, one
    tuple (wounds * damage, rend, "normal") follows.  When every crit is a
    hit, [hits - crits] is the number of dice that hit without being crits.
    (A roll asked for a negative count raises: the hit roll on a negative
    number of attacks, the wound roll when the crits outnumber the hits.) *)
Theorem crit_mortals_events
    (self : Unit) (hit_modifier wound_modifier : Z) (weapon : Weapon)
    (ws : list Weapon) (damage_list : list DamageEvent) (w : World) :
  crit_explode weapon = false ->
  crit_mortals weapon = true ->
  let hit_dice := next_dice w (weapon_attacks self weapon) in
  let hits := count_at_least (to_hit weapon - hit_modifier) hit_dice in
  let crits := count_at_least (crit_threshold weapon) hit_dice in
  let wound_dice := next_dice (after_spawn w) (hits - crits) in
  let wounds := count_at_least (to_wound weapon - wound_modifier) wound_dice in
  let mortal_events :=
    if 0 <? crits then [(crits * damage weapon, 0, "mortal"%string)]
    else [] in
  let normal_events :=
    if 0 <? wounds
    then [(wounds * damage weapon, rend weapon, "normal"%string)]
    else [] in
  let negative_count :=
    orb (weapon_attacks self weapon <? 0) (hits - crits <? 0) in
  deal_damage_weapon self hit_modifier wound_modifier weapon damage_list w
  = (if negative_count then Raise ValueError
     else Ok (damage_list ++ mortal_events ++ normal_events)
             (after_spawn (after_spawn w)))
  /\ deal_damage_loop self hit_modifier wound_modifier (weapon :: ws)
                      damage_list w
     = (if negative_count then Raise ValueError
        else deal_damage_loop self hit_modifier wound_modifier ws
               (damage_list ++ mortal_events ++ normal_events)
               (after_spawn (after_spawn w)))
  /\ (0 <= hits - crits -> Z.of_nat (List.length wound_dice) = hits - crits)
  /\ (to_hit weapon - hit_modifier <= crit_threshold weapon ->
      hits - crits
      = count_between (to_hit weapon - hit_modifier) (crit_threshold weapon)
                      hit_dice).
Proof.
  intros Hx Hm hit_dice hits crits wound_dice wounds mortal_events
         normal_events negative_count.
  assert (Hbody :
    deal_damage_weapon self hit_modifier wound_modifier weapon damage_list w
    = (if negative_count then Raise ValueError
       else Ok (damage_list ++ mortal_events ++ normal_events)
               (after_spawn (after_spawn w)))).
  { subst negative_count.
    destruct (weapon_attacks self weapon <? 0) eqn:Hn;
      [apply Z.ltb_lt in Hn | apply Z.ltb_ge in Hn]; cbn [orb].
    - unfold deal_damage_weapon, bind.
      now rewrite (hit_sequence_negative self hit_modifier weapon Hx Hm
                     damage_list w Hn).
    - exact (deal_damage_weapon_mortals self hit_modifier wound_modifier
               weapon Hx Hm damage_list w Hn). }
  split; [exact Hbody|]. split.
  - simpl. unfold bind at 1. rewrite Hbody.
    now destruct negative_count.
  - split.
    + intros L. subst wound_dice. now apply next_dice_length.
    + intros Hle. subst hits crits. now apply count_between_split.
Qed.

(** The claim on the dawnriders' lance (crits on 6, damage 2): 31 dice
    that all show 6 are 31 crits, one mortal tuple of 62, no wound roll
    dice. *)
Lemma crit_mortals_events_witness :
  deal_damage_weapon Scenario.dawnriders 0 0 Scenario.dawn_lance []
                     (Scenario.constant_world 5 0)
  = Ok [(62, 0, "mortal"%string)]
       (after_spawn (after_spawn (Scenario.constant_world 5 0))).
Proof.
  exact (proj1 (crit_mortals_events Scenario.dawnriders 0 0
                  Scenario.dawn_lance [] [] (Scenario.constant_world 5 0)
                  eq_refl eq_refl)).
Defined.

(** C10.  For a weapon whose crits deal mortal damage (and do not explode)
    and whose critical threshold is at least the effective hit target
    [to_hit - hit_modifier]: whatever the hit roll returns, the crits are at
    most the hits; whenever the hit sequence returns, the landed attacks
    left after the subtraction are non-negative and the wound roll on them
    returns; and the only way for the weapon's turn to raise is a negative
    number of attacks at the hit roll, never the wound roll. *)
Theorem crit_mortals_wound_roll_nonneg
    (self : Unit) (hit_modifier wound_modifier : Z) (weapon : Weapon)
    (damage_list : list DamageEvent) (w : World) :
  crit_explode weapon = false ->
  crit_mortals weapon = true ->
  to_hit weapon - hit_modifier <= crit_threshold weapon ->
  (forall hits crits w1,
      roll_dice (weapon_attacks self weapon) (to_hit weapon - hit_modifier)
                None (DirStr "match") true (crit_threshold weapon) w
      = Ok (hits, crits) w1 ->
      0 <= crits <= hits)
  /\ (forall attacks_landed damage_list' w1,
        hit_sequence self hit_modifier weapon damage_list w
        = Ok (attacks_landed, damage_list') w1 ->
        0 <= attacks_landed
        /\ exists wounds_landed w2,
             roll_dice attacks_landed (to_wound weapon - wound_modifier)
                       None (DirStr "match") false 6 w1
             = Ok wounds_landed w2)
  /\ (0 <= weapon_attacks self weapon ->
      exists damage_list' w2,
        deal_damage_weapon self hit_modifier wound_modifier weapon
                           damage_list w
        = Ok damage_list' w2)
  /\ (forall e,
        deal_damage_weapon self hit_modifier wound_modifier weapon
                           damage_list w
        = Raise e ->
        weapon_attacks self weapon < 0).
Proof.
  intros Hx Hm Hthr.
  set (n := weapon_attacks self weapon).
  set (hit_dice := next_dice w n).
  pose proof (crits_le_hits _ _ hit_dice Hthr) as Hle.
  pose proof (count_at_least_bounds (crit_threshold weapon) hit_dice) as Hc.
  assert (Hret : 0 <= n ->
            exists damage_list' w2,
              deal_damage_weapon self hit_modifier wound_modifier weapon
                                 damage_list w
              = Ok damage_list' w2).
  { intros Hn.
    pose proof (deal_damage_weapon_mortals self hit_modifier wound_modifier
                  weapon Hx Hm damage_list w Hn) as E.
    cbv zeta in E. fold n in E. fold hit_dice in E. rewrite E.
    destruct (_ <? 0) eqn:L; [apply Z.ltb_lt in L; lia|].
    eexists; eexists; reflexivity. }
  split; [|split; [|split]].
  - intros hits crits w1 E.
    destruct (Z.lt_ge_cases n 0) as [Hn|Hn].
    + fold n in E. now rewrite (roll_dice_negative _ _ _ _ _ _ _ Hn) in E.
    + fold n in E. rewrite (roll_dice_match_crits _ _ _ _ Hn) in E.
      fold hit_dice in E. injection E as <- <- _. lia.
  - intros attacks_landed damage_list' w1 E.
    destruct (Z.lt_ge_cases n 0) as [Hn|Hn].
    + now rewrite (hit_sequence_negative self hit_modifier weapon Hx Hm
                     damage_list w Hn) in E.
    + rewrite (hit_sequence_mortals self hit_modifier weapon Hx Hm
                 damage_list w Hn) in E.
      fold n in E. fold hit_dice in E. injection E as <- _ _.
      split; [lia|].
      rewrite roll_dice_match by lia. eexists; eexists; reflexivity.
  - exact Hret.
  - intros e E.
    destruct (Z.lt_ge_cases n 0) as [Hn|Hn]; [exact Hn|].
    destruct (Hret Hn) as (dl & w2 & E'). congruence.
Qed.

(** The claim on the wardens' pike (hit on 3, crit on 6), dice of 6. *)
Lemma crit_mortals_wound_roll_nonneg_witness :
  exists damage_list' w2,
    deal_damage_weapon Scenario.base_wardens 0 0 Scenario.pike []
                       (Scenario.constant_world 5 0)
    = Ok damage_list' w2.
Proof.
  apply (crit_mortals_wound_roll_nonneg Scenario.base_wardens 0 0
           Scenario.pike [] (Scenario.constant_world 5 0)
           eq_refl eq_refl ltac:(vm_compute; discriminate)).
  vm_compute; discriminate.
Defined.

(** ** The initiative draw *)

Section Legacy.

Lemma keeps_legacy_ret {A} (a : A) : keeps_legacy (ret a).
Proof. intros w a' w' H. now injection H as _ <-. Qed.

Lemma keeps_legacy_raise {A} e : keeps_legacy (@raise A e).
Proof. intros w a w' H. discriminate. Qed.

Lemma keeps_legacy_bind {A B} (m : M A) (k : A -> M B) :
  keeps_legacy m -> (forall a, keeps_legacy (k a)) -> keeps_legacy (bind m k).
Proof.
  intros Hm Hk w b w' H. unfold bind in H.
  destruct (m w) as [a w1|e] eqn:E; [|discriminate].
  rewrite (Hk a _ _ _ H). exact (Hm _ _ _ E).
Qed.

Lemma keeps_legacy_default_rng : keeps_legacy default_rng.
Proof. intros w a w' H. now injection H as _ <-. Qed.

Lemma keeps_legacy_roll_dice n t rng direction cc thr :
  keeps_legacy (roll_dice n t rng direction cc thr).
Proof.
  unfold roll_dice. apply keeps_legacy_bind.
  - destruct rng; [apply keeps_legacy_ret | apply keeps_legacy_default_rng].
  - intros g. destruct (roll_dice_on _ _ _ _ _ _) as [e|[r g']];
      [apply keeps_legacy_raise | apply keeps_legacy_ret].
Qed.

Ltac keeps_step :=
  first
    [ apply keeps_legacy_ret
    | apply keeps_legacy_raise
    | apply keeps_legacy_roll_dice
    | apply keeps_legacy_default_rng
    | assumption
    | apply keeps_legacy_bind; [|intros ?]
    | progress cbv zeta
    | match goal with
      | |- keeps_legacy (if ?b then _ else _) => destruct b
      | |- keeps_legacy (match ?x with _ => _ end) => destruct x
      end ].

Ltac keeps := repeat keeps_step.

Lemma keeps_legacy_take_damage u damage rend mortal ward_ignore :
  keeps_legacy (take_damage u damage rend mortal ward_ignore).
Proof.
  unfold take_damage, save_stage, ward_stage, apply_wounds. keeps.
Qed.

Lemma keeps_legacy_deal_damage_weapon u hm wm weapon dl :
  keeps_legacy (deal_damage_weapon u hm wm weapon dl).
Proof. unfold deal_damage_weapon, hit_sequence. keeps. Qed.

Lemma keeps_legacy_deal_damage_loop u hm wm ws :
  forall dl, keeps_legacy (deal_damage_loop u hm wm ws dl).
Proof.
  induction ws as [|weapon ws IH]; intros dl; simpl.
  - apply keeps_legacy_ret.
  - apply keeps_legacy_bind;
      [apply keeps_legacy_deal_damage_weapon | intros dl'; apply IH].
Qed.

Lemma keeps_legacy_deal_damage u hm wm : keeps_legacy (deal_damage u hm wm).
Proof.
  unfold deal_damage. destruct (weapons u);
    [apply keeps_legacy_deal_damage_loop | apply keeps_legacy_raise].
Qed.

Lemma keeps_legacy_apply_damage_list dl :
  forall target, keeps_legacy (apply_damage_list target dl).
Proof.
  induction dl as [|[[damage rend] damage_type] dl IH]; intros target; simpl.
  - apply keeps_legacy_ret.
  - apply keeps_legacy_bind.
    + destruct (String.eqb damage_type "mortal");
        apply keeps_legacy_take_damage.
    + intros [r target']. apply IH.
Qed.

Lemma keeps_legacy_strike striker target hm wm :
  keeps_legacy (strike striker target hm wm).
Proof.
  unfold strike. destruct (unit_alive striker);
    [|apply keeps_legacy_ret].
  apply keeps_legacy_bind;
    [apply keeps_legacy_deal_damage
    | intros dl; apply keeps_legacy_apply_damage_list].
Qed.

End Legacy.

Section InvertedFights.

Variables attacker defender : Unit.
Variable p : Q.
Variables ahm awm dhm dwm : Z.

Lemma simulation_step_inverted st w st' w' :
  simulation_step attacker defender p ahm awm dhm dwm st w = Ok st' w' ->
  legacy w' = advance (legacy w) 1
  /\ inverted_fights st'
     = inverted_fights st
       + (if Qltb (Qmake (stream (legacy w) (cursor (legacy w)) mod 2 ^ 53)
                         (2 ^ 53)) p
          then 1 else 0).
Proof.
  unfold simulation_step, np_random_random. unfold bind at 1.
  cbv zeta.
  set (w0 := {| os_entropy := os_entropy w; os_calls := os_calls w;
                legacy := advance (legacy w) 1 |}).
  destruct (Qltb _ p); unfold bind;
    do 2 (match goal with
          | |- context [strike ?a ?b ?c ?d ?x] =>
            let E := fresh "E" in
            let L := fresh "L" in
            destruct (strike a b c d x) as [? ?|?] eqn:E; [|discriminate];
            pose proof (keeps_legacy_strike _ _ _ _ _ _ _ E) as L;
            cbv beta iota
          end);
    unfold ret; intros H; injection H as <- <-; simpl;
    (split; [etransitivity; [eassumption|eassumption] | lia]).
Qed.

Lemma inversions_S g n :
  inversions g p (S n)
  = (if Qltb (Qmake (stream g (cursor g) mod 2 ^ 53) (2 ^ 53)) p
     then 1 else 0)
    + inversions (advance g 1) p n.
Proof.
  unfold inversions, order_rolls.
  rewrite <- cons_seq, <- seq_shift. cbn [map np_sum].
  rewrite Nat.add_0_r. f_equal. f_equal.
  rewrite !map_map. apply map_ext. intros i. cbn [advance stream cursor].
  now replace (cursor g + 1 + i)%nat with (cursor g + S i)%nat by lia.
Qed.

Lemma simulation_loop_inverted n :
  forall st w st' w',
    simulation_loop attacker defender p ahm awm dhm dwm n st w = Ok st' w' ->
    inverted_fights st' = inverted_fights st + inversions (legacy w) p n.
Proof.
  induction n as [|n IH]; intros st w st' w' H.
  - injection H as <- _. unfold inversions. simpl. lia.
  - simpl in H. unfold bind in H.
    destruct (simulation_step attacker defender p ahm awm dhm dwm st w)
      as [st1 w1|e] eqn:E; [|discriminate].
    apply simulation_step_inverted in E. destruct E as [L I].
    rewrite (IH _ _ _ _ H), I, L, inversions_S. lia.
Qed.

End InvertedFights.

Section Probabilities.

Lemma order_roll_below_one z : Qltb (Qmake (z mod 2 ^ 53) (2 ^ 53)) 1 = true.
Proof.
  unfold Qltb, Qle_bool. cbn [Qnum Qden].
  pose proof (Z.mod_pos_bound z (2 ^ 53) ltac:(lia)) as B.
  apply negb_true_iff, Z.leb_gt.
  change (Z.pos (2 ^ 53)) with (2 ^ 53). lia.
Qed.

Lemma order_roll_not_below_zero z :
  Qltb (Qmake (z mod 2 ^ 53) (2 ^ 53)) 0 = false.
Proof.
  unfold Qltb, Qle_bool. cbn [Qnum Qden].
  pose proof (Z.mod_pos_bound z (2 ^ 53) ltac:(lia)) as B.
  apply negb_false_iff, Z.leb_le. lia.
Qed.

Lemma inversions_one g n : inversions g 1 n = Z.of_nat n.
Proof.
  revert g. induction n as [|n IH]; intros g.
  - reflexivity.
  - rewrite inversions_S, order_roll_below_one, IH. lia.
Qed.

Lemma inversions_zero g n : inversions g 0 n = 0.
Proof.
  revert g. induction n as [|n IH]; intros g.
  - reflexivity.
  - now rewrite inversions_S, order_roll_not_below_zero, IH.
Qed.

End Probabilities.

(** ** Runs that return *)

Section Returns.

Lemma weapon_attacks_nonneg u weapon :
  0 <= models u -> 0 <= attacks weapon -> 0 <= weapon_attacks u weapon.
Proof.
  intros Hm Ha. unfold weapon_attacks.
  destruct (has_leader u && negb (companion weapon))%bool; nia.
Qed.

Lemma nonneg_damage_app dl e :
  Forall nonneg_damage dl -> nonneg_damage e -> Forall nonneg_damage (dl ++ [e]).
Proof. intros H He. apply Forall_app. split; [exact H|now constructor]. Qed.

Lemma deal_damage_weapon_returns u hm wm weapon dl w :
  0 <= models u -> weapon_ok hm weapon -> Forall nonneg_damage dl ->
  exists dl' w',
    deal_damage_weapon u hm wm weapon dl w = Ok dl' w'
    /\ Forall nonneg_damage dl'.
Proof.
  intros Hm (Ha & Hd & Hthr) Hdl.
  pose proof (weapon_attacks_nonneg u weapon Hm Ha) as Hn.
  set (hit_dice := next_dice w (weapon_attacks u weapon)).
  pose proof (count_at_least_bounds (to_hit weapon - hm) hit_dice) as Hh.
  pose proof (count_at_least_bounds (crit_threshold weapon) hit_dice) as Hc.
  assert (Hwound : forall n dl0 w0,
            0 <= n -> Forall nonneg_damage dl0 ->
            exists dl' w',
              (wounds_landed <-
                 roll_dice n (to_wound weapon - wm) None (DirStr "match")
                           false 6 ;;
               ret (if 0 <? wounds_landed
                    then dl0 ++ [(wounds_landed * damage weapon, rend weapon,
                                  "normal"%string)]
                    else dl0)) w0 = Ok dl' w'
              /\ Forall nonneg_damage dl').
  { intros n dl0 w0 Hn0 Hdl0. unfold bind.
    rewrite (roll_dice_match _ _ _ Hn0). eexists; eexists.
    split; [reflexivity|].
    pose proof (count_at_least_bounds (to_wound weapon - wm)
                  (next_dice w0 n)).
    destruct (0 <? _); [|exact Hdl0].
    apply nonneg_damage_app; [exact Hdl0|]. unfold nonneg_damage. simpl. nia. }
  unfold deal_damage_weapon. unfold bind at 1. unfold hit_sequence.
  destruct (crit_explode weapon) eqn:Hx; [|destruct (crit_mortals weapon) eqn:Hmo].
  - unfold bind at 1. rewrite (roll_dice_match_crits _ _ _ _ Hn).
    fold hit_dice. apply Hwound; [lia|exact Hdl].
  - unfold bind at 1. rewrite (roll_dice_match_crits _ _ _ _ Hn).
    fold hit_dice. pose proof (crits_le_hits _ _ hit_dice (Hthr eq_refl eq_refl)).
    apply Hwound; [lia|].
    destruct (0 <? _); [|exact Hdl].
    apply nonneg_damage_app; [exact Hdl|]. unfold nonneg_damage. simpl. nia.
  - unfold bind at 1. rewrite (roll_dice_match _ _ _ Hn).
    fold hit_dice. apply Hwound; [lia|exact Hdl].
Qed.

Lemma deal_damage_loop_returns u hm wm ws :
  0 <= models u -> Forall (weapon_ok hm) ws ->
  forall dl w,
    Forall nonneg_damage dl ->
    exists dl' w',
      deal_damage_loop u hm wm ws dl w = Ok dl' w'
      /\ Forall nonneg_damage dl'.
Proof.
  intros Hm. induction 1 as [|weapon ws Hw _ IH]; intros dl w Hdl.
  - exists dl, w. split; [reflexivity|exact Hdl].
  - simpl. unfold bind.
    destruct (deal_damage_weapon_returns u hm wm weapon dl w Hm Hw Hdl)
      as (dl1 & w1 & -> & Hdl1).
    apply IH. exact Hdl1.
Qed.

Lemma deal_damage_returns u hm wm w :
  can_strike hm u ->
  exists dl w', deal_damage u hm wm w = Ok dl w' /\ Forall nonneg_damage dl.
Proof.
  intros (Hm & ws & Hws & Hok). unfold deal_damage. rewrite Hws.
  apply deal_damage_loop_returns; [assumption|assumption|constructor].
Qed.

Lemma apply_damage_list_returns dl :
  Forall nonneg_damage dl ->
  forall target w,
    wounds_per_model target <> 0 ->
    exists target' w',
      apply_damage_list target dl w = Ok target' w'
      /\ wounds_per_model target' = wounds_per_model target
      /\ weapons target' = weapons target
      /\ (0 <= models target -> 0 <= models target').
Proof.
  induction 1 as [|[[damage rend] damage_type] dl He _ IH]; intros target w Hw.
  - exists target, w. auto.
  - simpl. unfold bind. unfold nonneg_damage in He. simpl in He.
    assert (Hstep : exists r w1,
              (if String.eqb damage_type "mortal"
               then take_damage target damage 0 true false
               else take_damage target damage rend false false) w
              = Ok (r, after_wounds target r) w1).
    { destruct (String.eqb damage_type "mortal");
        [destruct (take_damage_returns target damage 0 true false w He Hw)
           as (r & w1 & E & _)
        |destruct (take_damage_returns target damage rend false false w He Hw)
           as (r & w1 & E & _)];
        exists r, w1; exact E. }
    destruct Hstep as (r & w1 & ->).
    destruct (IH (after_wounds target r) w1 Hw)
      as (target' & w' & E & Hwpm & Hws & Hm).
    exists target', w'. split; [exact E|]. split; [exact Hwpm|].
    split; [exact Hws|]. intros _. apply Hm.
    apply after_wounds_models_nonneg.
Qed.

Lemma strike_returns striker target hm wm w :
  can_strike hm striker -> wounds_per_model target <> 0 ->
  exists target' w',
    strike striker target hm wm w = Ok target' w'
    /\ wounds_per_model target' = wounds_per_model target
    /\ weapons target' = weapons target
    /\ (0 <= models target -> 0 <= models target').
Proof.
  intros Hs Hw. unfold strike.
  destruct (unit_alive striker); [|exists target, w; auto].
  unfold bind.
  destruct (deal_damage_returns striker hm wm w Hs) as (dl & w1 & -> & Hdl).
  now apply apply_damage_list_returns.
Qed.

Lemma fresh_copy_ok hm u : template_ok hm u -> template_ok hm (fresh_copy u).
Proof. intros H. exact H. Qed.

Variables attacker defender : Unit.
Variable p : Q.
Variables ahm awm dhm dwm : Z.
Hypothesis attacker_ok : template_ok ahm attacker.
Hypothesis defender_ok : template_ok dhm defender.

Lemma simulation_step_returns st w :
  exists st' w',
    simulation_step attacker defender p ahm awm dhm dwm st w = Ok st' w'.
Proof.
  destruct (fresh_copy_ok _ _ attacker_ok) as [[Am (aws & Aws & Aok)] Aw].
  destruct (fresh_copy_ok _ _ defender_ok) as [[Dm (dws & Dws & Dok)] Dw].
  unfold simulation_step, np_random_random. unfold bind at 1. cbv zeta.
  set (w0 := {| os_entropy := os_entropy w; os_calls := os_calls w;
                legacy := advance (legacy w) 1 |}).
  destruct (Qltb _ p); unfold bind.
  - destruct (strike_returns (fresh_copy defender) (fresh_copy attacker)
                dhm dwm w0) as (a' & w1 & -> & Hwpm & Hws & Hm);
      [split; [exact Dm|exists dws; auto] | exact Aw |].
    destruct (strike_returns a' (fresh_copy defender) ahm awm w1)
      as (d' & w2 & -> & _); [|exact Dw|eexists; eexists; reflexivity].
    split; [exact (Hm Am)|]. exists aws. rewrite Hws. auto.
  - destruct (strike_returns (fresh_copy attacker) (fresh_copy defender)
                ahm awm w0) as (d' & w1 & -> & Hwpm & Hws & Hm);
      [split; [exact Am|exists aws; auto] | exact Dw |].
    destruct (strike_returns d' (fresh_copy attacker) dhm dwm w1)
      as (a' & w2 & -> & _); [|exact Aw|eexists; eexists; reflexivity].
    split; [exact (Hm Dm)|]. exists dws. rewrite Hws. auto.
Qed.

Lemma simulation_loop_returns n :
  forall st w,
    exists st' w',
      simulation_loop attacker defender p ahm awm dhm dwm n st w = Ok st' w'.
Proof.
  induction n as [|n IH]; intros st w.
  - exists st, w. reflexivity.
  - simpl. unfold bind.
    destruct (simulation_step_returns st w) as (st1 & w1 & ->). apply IH.
Qed.

End Returns.

Section OrderRolls.

Lemma order_rolls_range g n :
  Forall (fun r : Q => (0 <= r)%Q /\ (r < 1)%Q) (order_rolls g n).
Proof.
  unfold order_rolls. apply Forall_forall. intros r Hr.
  apply in_map_iff in Hr. destruct Hr as [i [<- _]].
  pose proof (Z.mod_pos_bound (stream g (cursor g + i)) (2 ^ 53)
                ltac:(lia)) as B.
  unfold Qle, Qlt. cbn [Qnum Qden].
  change (Z.pos (2 ^ 53)) with (2 ^ 53). split; lia.
Qed.

Lemma combat_simulation_inverted attacker defender p n ahm awm dhm dwm
      w a d inv w' :
  combat_simulation attacker defender p n ahm awm dhm dwm w
  = Ok (a, d, inv) w' ->
  inv = inversions (legacy w) p (Z.to_nat n).
Proof.
  unfold combat_simulation, combat_samples, bind.
  destruct (simulation_loop _ _ _ _ _ _ _ _ _ w) as [st w1|e] eqn:E;
    [|discriminate].
  apply simulation_loop_inverted in E. simpl in E.
  unfold ret. intros H. injection H as _ _ <- _. exact E.
Qed.

Lemma combat_simulation_returns attacker defender p n ahm awm dhm dwm w :
  template_ok ahm attacker -> template_ok dhm defender ->
  exists a d inv w',
    combat_simulation attacker defender p n ahm awm dhm dwm w
    = Ok (a, d, inv) w'.
Proof.
  intros Ha Hd. unfold combat_simulation, combat_samples, bind.
  destruct (simulation_loop_returns attacker defender p ahm awm dhm dwm
              Ha Hd (Z.to_nat n)
              {| attacker_wounds_remaining := [];
                 defender_wounds_remaining := [];
                 inverted_fights := 0 |} w) as (st & w1 & ->).
  unfold ret. repeat eexists.
Qed.

End OrderRolls.

(** C7.  For every pair of templates, modifiers and world, and every trial
    count n >= 1: every draw of the initiative lies in [0, 1); a run that
    returns has counted the draws strictly below the inversion probability;
    so with probability 1 it returns n as [inverted_fights] and with
    probability 0 it returns 0.  On templates that never ask the dice
    engine for a negative count ([template_ok]) the run does return. *)
Theorem inverted_fights_extremes
    (attacker defender : Unit) (n ahm awm dhm dwm : Z) (w : World) :
  1 <= n ->
  Forall (fun r : Q => (0 <= r)%Q /\ (r < 1)%Q)
         (order_rolls (legacy w) (Z.to_nat n))
  /\ (forall p a d inv w',
        combat_simulation attacker defender p n ahm awm dhm dwm w
        = Ok (a, d, inv) w' ->
        inv = inversions (legacy w) p (Z.to_nat n))
  /\ (forall a d inv w',
        combat_simulation attacker defender 1 n ahm awm dhm dwm w
        = Ok (a, d, inv) w' ->
        inv = n)
  /\ (forall a d inv w',
        combat_simulation attacker defender 0 n ahm awm dhm dwm w
        = Ok (a, d, inv) w' ->
        inv = 0)
  /\ (template_ok ahm attacker -> template_ok dhm defender ->
      (exists a d w',
          combat_simulation attacker defender 1 n ahm awm dhm dwm w
          = Ok (a, d, n) w')
      /\ (exists a d w',
             combat_simulation attacker defender 0 n ahm awm dhm dwm w
             = Ok (a, d, 0) w')).
Proof.
  intros Hn.
  assert (H1 : forall a d inv w',
             combat_simulation attacker defender 1 n ahm awm dhm dwm w
             = Ok (a, d, inv) w' -> inv = n).
  { intros a d inv w' H. apply combat_simulation_inverted in H.
    rewrite inversions_one in H. lia. }
  assert (H0 : forall a d inv w',
             combat_simulation attacker defender 0 n ahm awm dhm dwm w
             = Ok (a, d, inv) w' -> inv = 0).
  { intros a d inv w' H. apply combat_simulation_inverted in H.
    now rewrite inversions_zero in H. }
  split; [apply order_rolls_range|].
  split; [intros p a d inv w'; apply combat_simulation_inverted|].
  split; [exact H1|]. split; [exact H0|].
  intros Ha Hd. split.
  - destruct (combat_simulation_returns attacker defender 1 n ahm awm dhm dwm
                w Ha Hd) as (a & d & inv & w' & E).
    rewrite (H1 _ _ _ _ E) in E. eauto.
  - destruct (combat_simulation_returns attacker defender 0 n ahm awm dhm dwm
                w Ha Hd) as (a & d & inv & w' & E).
    rewrite (H0 _ _ _ _ E) in E. eauto.
Qed.

(** The claim on the chaos knights against the wardens, 2 trials. *)
Lemma inverted_fights_extremes_witness :
  (exists a d w',
      combat_simulation Scenario.chaos_knights Scenario.base_wardens 1 2
                        0 0 0 0 (Scenario.constant_world 3 0)
      = Ok (a, d, 2) w')
  /\ (exists a d w',
         combat_simulation Scenario.chaos_knights Scenario.base_wardens 0 2
                           0 0 0 0 (Scenario.constant_world 3 0)
         = Ok (a, d, 0) w').
Proof.
  apply (inverted_fights_extremes Scenario.chaos_knights Scenario.base_wardens
           2 0 0 0 0 (Scenario.constant_world 3 0)).
  - lia.
  - unfold template_ok, can_strike, weapon_ok. simpl.
    split; [split; [lia|]|lia].
    eexists. split; [reflexivity|].
    repeat constructor; simpl; try lia; discriminate.
  - unfold template_ok, can_strike, weapon_ok. simpl.
    split; [split; [lia|]|lia].
    eexists. split; [reflexivity|].
    repeat constructor; simpl; try lia; intros; lia.
Defined.

(** ** Reproducibility *)

Section Reproducibility.

Lemma same_randomness_refl w : same_randomness w w.
Proof. split; intro; reflexivity. Qed.

Lemma agree_value_of {A} (r1 r2 : Res A) :
  agree r1 r2 -> value_of r1 = value_of r2.
Proof.
  destruct r1 as [a1 w1|e1], r2 as [a2 w2|e2]; simpl;
    try contradiction; [intros [-> _]|intros ->]; reflexivity.
Qed.

Lemma deterministic_ret {A} (a : A) : deterministic (ret a).
Proof. intros w1 w2 H. split; [reflexivity|exact H]. Qed.

Lemma deterministic_raise {A} e : deterministic (@raise A e).
Proof. intros w1 w2 H. reflexivity. Qed.

Lemma deterministic_bind {A B} (m : M A) (k : A -> M B) :
  deterministic m -> (forall a, deterministic (k a)) ->
  deterministic (bind m k).
Proof.
  intros Hm Hk w1 w2 H. unfold bind. specialize (Hm w1 w2 H).
  destruct (m w1) as [a1 w1'|e1], (m w2) as [a2 w2'|e2]; simpl in Hm;
    try contradiction.
  - destruct Hm as [-> Hw]. now apply Hk.
  - exact Hm.
Qed.

Lemma draws_ext g1 g2 low high n :
  (forall i, stream g1 (cursor g1 + i) = stream g2 (cursor g2 + i)) ->
  draws g1 low high n = draws g2 low high n.
Proof.
  intros H. unfold draws. apply map_ext. intros i. now rewrite H.
Qed.

(** The result of a roll depends on the outputs of the generator only. *)
Lemma roll_dice_on_ext g1 g2 n t direction cc thr :
  (forall i, stream g1 (cursor g1 + i) = stream g2 (cursor g2 + i)) ->
  match roll_dice_on g1 n t direction cc thr,
        roll_dice_on g2 n t direction cc thr with
  | inl e1, inl e2 => e1 = e2
  | inr (r1, _), inr (r2, _) => r1 = r2
  | _, _ => False
  end.
Proof.
  intros H. unfold roll_dice_on, integers.
  destruct (as_RollDirection direction); [|reflexivity].
  destruct (n <? 0); [reflexivity|].
  now rewrite (draws_ext g1 g2 1 7 (Z.to_nat n) H).
Qed.

Lemma after_spawn_same w1 w2 :
  same_randomness w1 w2 -> same_randomness (after_spawn w1) (after_spawn w2).
Proof.
  intros [Ho Hd]. split; [exact Ho|].
  intros k i. simpl. specialize (Hd (S k) i).
  now rewrite !Nat.add_succ_r in Hd.
Qed.

Lemma deterministic_roll_dice n t direction cc thr :
  deterministic (roll_dice n t None direction cc thr).
Proof.
  intros w1 w2 H. unfold roll_dice, bind, default_rng.
  assert (Hs : forall i, stream (spawned w1) (cursor (spawned w1) + i)
                         = stream (spawned w2) (cursor (spawned w2) + i)).
  { intros i. simpl. destruct H as [_ Hd]. specialize (Hd 0%nat i).
    now rewrite !Nat.add_0_r in Hd. }
  pose proof (roll_dice_on_ext _ _ n t direction cc thr Hs) as E.
  destruct (roll_dice_on (spawned w1) n t direction cc thr) as [e1|[r1 g1]],
           (roll_dice_on (spawned w2) n t direction cc thr) as [e2|[r2 g2]];
    simpl in *; try contradiction; [exact E|].
  split; [exact E|now apply after_spawn_same].
Qed.

Lemma deterministic_np_random_random : deterministic np_random_random.
Proof.
  intros w1 w2 [Ho Hd]. unfold np_random_random. simpl.
  split; [|split].
  - pose proof (Ho 0%nat) as H0. rewrite !Nat.add_0_r in H0. now rewrite H0.
  - intros i. simpl. specialize (Ho (S i)).
    now replace (cursor (legacy w1) + 1 + i)%nat
          with (cursor (legacy w1) + S i)%nat by lia;
        replace (cursor (legacy w2) + 1 + i)%nat
          with (cursor (legacy w2) + S i)%nat by lia.
  - exact Hd.
Qed.

Ltac determ_step :=
  first
    [ apply deterministic_ret
    | apply deterministic_raise
    | apply deterministic_roll_dice
    | apply deterministic_np_random_random
    | assumption
    | apply deterministic_bind; [|intros ?]
    | progress cbv zeta
    | match goal with
      | |- deterministic (if ?b then _ else _) => destruct b
      | |- deterministic (match ?x with _ => _ end) => destruct x
      end ].

Ltac determ := repeat determ_step.

Lemma deterministic_take_damage u damage rend mortal ward_ignore :
  deterministic (take_damage u damage rend mortal ward_ignore).
Proof.
  unfold take_damage, save_stage, ward_stage, apply_wounds.
  apply deterministic_bind.
  - destruct mortal; [apply deterministic_ret|].
    destruct (ethereal u); apply (deterministic_roll_dice _ _ _ false).
  - intros x. apply deterministic_bind.
    + destruct (truthy (ward_save u) && negb ward_ignore)%bool;
        [apply (deterministic_roll_dice _ _ _ false)|apply deterministic_ret].
    + intros y. determ.
Qed.

Lemma deterministic_deal_damage_weapon u hm wm weapon dl :
  deterministic (deal_damage_weapon u hm wm weapon dl).
Proof.
  unfold deal_damage_weapon, hit_sequence.
  apply deterministic_bind.
  - destruct (crit_explode weapon); [|destruct (crit_mortals weapon)].
    + apply deterministic_bind;
        [apply (deterministic_roll_dice _ _ _ true)|intros [h c]; determ].
    + apply deterministic_bind;
        [apply (deterministic_roll_dice _ _ _ true)|intros [h c]; determ].
    + apply deterministic_bind;
        [apply (deterministic_roll_dice _ _ _ false)|intros h; determ].
  - intros [al dl']. apply deterministic_bind;
      [apply (deterministic_roll_dice _ _ _ false)|intros x; determ].
Qed.

Lemma deterministic_deal_damage u hm wm : deterministic (deal_damage u hm wm).
Proof.
  unfold deal_damage. destruct (weapons u) as [ws|];
    [|apply deterministic_raise].
  generalize (@nil DamageEvent).
  induction ws as [|weapon ws IH]; intros dl; simpl.
  - apply deterministic_ret.
  - apply deterministic_bind;
      [apply deterministic_deal_damage_weapon|intros dl'; apply IH].
Qed.

Lemma deterministic_apply_damage_list dl :
  forall target, deterministic (apply_damage_list target dl).
Proof.
  induction dl as [|[[damage rend] damage_type] dl IH]; intros target; simpl.
  - apply deterministic_ret.
  - apply deterministic_bind.
    + destruct (String.eqb damage_type "mortal");
        apply deterministic_take_damage.
    + intros [r target']. apply IH.
Qed.

Lemma deterministic_strike striker target hm wm :
  deterministic (strike striker target hm wm).
Proof.
  unfold strike. destruct (unit_alive striker); [|apply deterministic_ret].
  apply deterministic_bind;
    [apply deterministic_deal_damage
    |intros dl; apply deterministic_apply_damage_list].
Qed.

Lemma deterministic_simulation_loop attacker defender p ahm awm dhm dwm n :
  forall st,
    deterministic
      (simulation_loop attacker defender p ahm awm dhm dwm n st).
Proof.
  induction n as [|n IH]; intros st; simpl.
  - apply deterministic_ret.
  - apply deterministic_bind; [|intros st'; apply IH].
    unfold simulation_step. cbv zeta.
    apply deterministic_bind; [apply deterministic_np_random_random|].
    intros r. destruct (Qltb r p);
      (apply deterministic_bind; [apply deterministic_strike|]; intros u1;
       apply deterministic_bind; [apply deterministic_strike|]; intros u2;
       apply deterministic_ret).
Qed.

Lemma inversions_ext w1 w2 p n :
  same_order_rolls w1 w2 ->
  inversions (legacy w1) p n = inversions (legacy w2) p n.
Proof.
  intros H. unfold inversions, order_rolls. f_equal. f_equal.
  apply map_ext. intros i. now rewrite (H i).
Qed.

End Reproducibility.

(** C8, as amended.  The program draws from two sources: the initiative
    from the process-wide generator, the dice from a fresh generator that
    every [roll_dice] call has the system seed.  Two runs on identical
    inputs whose process-wide generators return the same outputs (the same
    seed) return the same [inverted_fights] whenever both return.  When in
    addition the generators seeded by the system return the same outputs,
    the two runs end alike: the same exception, or the same terminal health
    values of both units, the same means and the same count. *)
Theorem seeded_runs_agree
    (attacker defender : Unit) (p : Q) (n ahm awm dhm dwm : Z)
    (w1 w2 : World) :
  (same_order_rolls w1 w2 ->
   forall a1 d1 inv1 w1' a2 d2 inv2 w2',
     combat_simulation attacker defender p n ahm awm dhm dwm w1
     = Ok (a1, d1, inv1) w1' ->
     combat_simulation attacker defender p n ahm awm dhm dwm w2
     = Ok (a2, d2, inv2) w2' ->
     inv1 = inv2)
  /\ (same_randomness w1 w2 ->
      value_of (combat_samples attacker defender p n ahm awm dhm dwm w1)
      = value_of (combat_samples attacker defender p n ahm awm dhm dwm w2)
      /\ value_of (combat_simulation attacker defender p n ahm awm dhm dwm w1)
         = value_of
             (combat_simulation attacker defender p n ahm awm dhm dwm w2)).
Proof.
  split.
  - intros Ho a1 d1 inv1 w1' a2 d2 inv2 w2' E1 E2.
    apply combat_simulation_inverted in E1.
    apply combat_simulation_inverted in E2.
    rewrite E1, E2. now apply inversions_ext.
  - intros H.
    assert (Hs : deterministic
                   (combat_samples attacker defender p n ahm awm dhm dwm))
      by apply deterministic_simulation_loop.
    split; apply agree_value_of.
    + now apply Hs.
    + unfold combat_simulation.
      apply deterministic_bind;
        [exact Hs | intros st; apply deterministic_ret | exact H].
Qed.

(** The amended claim with one trial, in two worlds that differ in how
    much of the same randomness is already spent. *)
Lemma seeded_runs_agree_witness :
  value_of (combat_samples Scenario.dawnriders Scenario.chaos_knights 0 1
                           0 0 0 0 (Scenario.constant_world 5 0))
  = value_of (combat_samples Scenario.dawnriders Scenario.chaos_knights 0 1
                             0 0 0 0
                             (mkWorld (fun _ _ => 5) 3
                                      (mkGenerator (fun _ => 0) 2)))
  /\ value_of (combat_simulation Scenario.dawnriders Scenario.chaos_knights
                                 0 1 0 0 0 0 (Scenario.constant_world 5 0))
     = value_of (combat_simulation Scenario.dawnriders Scenario.chaos_knights
                                   0 1 0 0 0 0
                                   (mkWorld (fun _ _ => 5) 3
                                            (mkGenerator (fun _ => 0) 2))).
Proof.
  apply (seeded_runs_agree Scenario.dawnriders Scenario.chaos_knights 0 1
           0 0 0 0 (Scenario.constant_world 5 0)
           (mkWorld (fun _ _ => 5) 3 (mkGenerator (fun _ => 0) 2))).
  split; intro; reflexivity.
Defined.

(** C8 fails as stated: one trial of the dawnriders against the chaos
    knights, twice with the same process-wide generator (the same seed) and
    the same inputs.  In one run the system seeds generators whose dice all
    show 1, in the other 6: the chaos knights end at 40 and at -33. *)
Lemma seeded_runs_differ_counterexample :
  legacy (Scenario.constant_world 0 0) = legacy (Scenario.constant_world 5 0)
  /\ value_of (combat_samples Scenario.dawnriders Scenario.chaos_knights 0 1
                              0 0 0 0 (Scenario.constant_world 0 0))
     = inr {| attacker_wounds_remaining := [30];
              defender_wounds_remaining := [40];
              inverted_fights := 0 |}
  /\ value_of (combat_samples Scenario.dawnriders Scenario.chaos_knights 0 1
                              0 0 0 0 (Scenario.constant_world 5 0))
     = inr {| attacker_wounds_remaining := [30];
              defender_wounds_remaining := [-33];
              inverted_fights := 0 |}
  /\ value_of (combat_simulation Scenario.dawnriders Scenario.chaos_knights
                                 0 1 0 0 0 0 (Scenario.constant_world 0 0))
     <> value_of (combat_simulation Scenario.dawnriders Scenario.chaos_knights
                                    0 1 0 0 0 0 (Scenario.constant_world 5 0)).
Proof.
  split; [reflexivity|].
  split; [vm_compute; reflexivity|].
  split; [vm_compute; reflexivity|].
  vm_compute. discriminate.
Qed.

(** ** Further properties of the dice engine *)

Section DiceEngineMore.

Lemma np_sum_app bs1 bs2 : np_sum (bs1 ++ bs2) = np_sum bs1 + np_sum bs2.
Proof. induction bs1 as [|b bs1 IH]; simpl; [reflexivity|]. rewrite IH. lia. Qed.

Lemma np_sum_complement {A} (p : A -> bool) (l : list A) :
  np_sum (map p l) + np_sum (map (fun x => negb (p x)) l)
  = Z.of_nat (List.length l).
Proof.
  induction l as [|x l IH]; [reflexivity|].
  cbn [map np_sum List.length]. destruct (p x); cbn [negb]; lia.
Qed.

Lemma np_sum_none {A} (p : A -> bool) (l : list A) :
  (forall x, In x l -> p x = false) -> np_sum (map p l) = 0.
Proof.
  induction l as [|x l IH]; intros H; [reflexivity|].
  cbn [map np_sum]. rewrite (H x (or_introl eq_refl)), IH; [reflexivity|].
  intros y Hy. apply H. now right.
Qed.

Lemma np_sum_every {A} (p : A -> bool) (l : list A) :
  (forall x, In x l -> p x = true) ->
  np_sum (map p l) = Z.of_nat (List.length l).
Proof.
  intros H. rewrite np_sum_all_true; [now rewrite length_map|].
  apply Forall_map, Forall_forall. exact H.
Qed.

(** The dice of a shorter roll are the first dice of a longer one. *)
Lemma draws_prefix g low high n m :
  (n <= m)%nat ->
  exists rest, draws g low high m = draws g low high n ++ rest.
Proof.
  intros H. unfold draws.
  replace m with (n + (m - n))%nat by lia.
  rewrite seq_app, map_app. eexists. reflexivity.
Qed.

Lemma np_sum_draws_prefix (p : Z -> bool) g low high n m :
  (n <= m)%nat ->
  np_sum (map p (draws g low high n)) <= np_sum (map p (draws g low high m)).
Proof.
  intros H. destruct (draws_prefix g low high n m H) as [rest ->].
  rewrite map_app, np_sum_app.
  pose proof (np_sum_bounds (map p rest)). lia.
Qed.

Lemma face_in_range g n r : In r (draws g 1 7 n) -> 1 <= r <= 6.
Proof.
  intros H. pose proof (dice_faces g n) as F.
  rewrite Forall_forall in F. now apply F.
Qed.

Lemma RollDirection_of_value_iff s d :
  RollDirection_of_value s = Some d <-> s = RollDirection_value d.
Proof.
  unfold RollDirection_of_value.
  destruct (String.eqb s "match") eqn:E1;
    [apply String.eqb_eq in E1|apply String.eqb_neq in E1];
    [subst s; destruct d; simpl; split; congruence|].
  destruct (String.eqb s "above") eqn:E2;
    [apply String.eqb_eq in E2|apply String.eqb_neq in E2];
    [subst s; destruct d; simpl; split; congruence|].
  destruct (String.eqb s "below") eqn:E3;
    [apply String.eqb_eq in E3|apply String.eqb_neq in E3];
    [subst s; destruct d; simpl; split; congruence|].
  destruct d; simpl; split; congruence.
Qed.

(** The hits of a roll on a given generator, per direction. *)
Lemma roll_dice_on_hits g n t d :
  0 <= n ->
  roll_dice_on g n t (DirEnum d) false 6
  = inr (match d with
         | MATCH => np_sum (map (fun r => t <=? r) (draws g 1 7 (Z.to_nat n)))
         | ABOVE => np_sum (map (fun r => t <? r) (draws g 1 7 (Z.to_nat n)))
         | BELOW => np_sum (map (fun r => r <? t) (draws g 1 7 (Z.to_nat n)))
         end, advance g (Z.to_nat n)).
Proof.
  intros H. unfold roll_dice_on. simpl as_RollDirection.
  now rewrite (integers_nonneg _ _ _ _ H).
Qed.

End DiceEngineMore.


(** X2.  A direction given as a string is read without regard to letter
    case: the string names the member whose value is its lower-case form,
    and [roll_dice] then behaves as on the member itself.  The value of a
    member is read back as that member. *)
Theorem direction_string_any_case (s : string) (d : RollDirection) :
  (as_RollDirection (DirStr s) = Some d <-> lower s = RollDirection_value d)
  /\ as_RollDirection (DirStr (RollDirection_value d)) = Some d
  /\ (lower s = RollDirection_value d ->
      forall num_dice target rng critical_count critical_threshold w,
        roll_dice num_dice target rng (DirStr s) critical_count
                  critical_threshold w
        = roll_dice num_dice target rng (DirEnum d) critical_count
                    critical_threshold w).
Proof.
  assert (H : as_RollDirection (DirStr s) = Some d
              <-> lower s = RollDirection_value d)
    by apply RollDirection_of_value_iff.
  split; [exact H|]. split; [now destruct d|].
  intros Hs num_dice target rng cc thr w.
  apply H in Hs. unfold roll_dice, roll_dice_on. now rewrite Hs.
Qed.

(** The property on the string "BeLoW", 4 dice against 3. *)
Lemma direction_string_any_case_witness :
  roll_dice 4 3 None (DirStr "BeLoW") false 6 (Scenario.constant_world 1 0)
  = roll_dice 4 3 None (DirEnum BELOW) false 6 (Scenario.constant_world 1 0).
Proof.
  apply (direction_string_any_case "BeLoW" BELOW). reflexivity.
Defined.

(** X3.  On the same dice, MATCH and BELOW against one target split the
    dice between them: their hits add up to the count.  ABOVE against a
    target is MATCH against the next integer. *)
Theorem match_below_partition (g : Generator) (num_dice target : Z) :
  0 <= num_dice ->
  exists m b g',
    roll_dice_on g num_dice target (DirEnum MATCH) false 6 = inr (m, g')
    /\ roll_dice_on g num_dice target (DirEnum BELOW) false 6 = inr (b, g')
    /\ m + b = num_dice
    /\ roll_dice_on g num_dice target (DirEnum ABOVE) false 6
       = roll_dice_on g num_dice (target + 1) (DirEnum MATCH) false 6.
Proof.
  intros H. rewrite !(roll_dice_on_hits _ _ _ _ H).
  eexists; eexists; eexists. split; [reflexivity|]. split; [reflexivity|].
  split.
  - rewrite <- (Z2Nat.id num_dice H) at 3.
    rewrite <- (draws_length g 1 7 (Z.to_nat num_dice)) at 3.
    rewrite <- (np_sum_complement (fun r => target <=? r)).
    f_equal. f_equal. apply map_ext. intros r.
    now rewrite Z.ltb_antisym.
  - f_equal. f_equal. f_equal. apply map_ext. intros r.
    destruct (target <? r) eqn:A; destruct (target + 1 <=? r) eqn:B;
      try reflexivity;
      try apply Z.ltb_lt in A; try apply Z.ltb_ge in A;
      try apply Z.leb_le in B; try apply Z.leb_gt in B; lia.
Qed.

(** The property on 4 dice against 3. *)
Lemma match_below_partition_witness :
  exists m b g',
    roll_dice_on (mkGenerator (fun i => Z.of_nat i) 0) 4 3 (DirEnum MATCH)
                 false 6 = inr (m, g')
    /\ roll_dice_on (mkGenerator (fun i => Z.of_nat i) 0) 4 3 (DirEnum BELOW)
                    false 6 = inr (b, g')
    /\ m + b = 4
    /\ roll_dice_on (mkGenerator (fun i => Z.of_nat i) 0) 4 3 (DirEnum ABOVE)
                    false 6
       = roll_dice_on (mkGenerator (fun i => Z.of_nat i) 0) 4 (3 + 1)
                      (DirEnum MATCH) false 6.
Proof.
  apply (match_below_partition (mkGenerator (fun i => Z.of_nat i) 0) 4 3).
  lia.
Defined.

(** X4.  Targets outside the faces of a die: against a target of 1 or less
    every die is a MATCH hit and none is BELOW; against 7 or more none is a
    MATCH hit and every die is BELOW; a critical threshold of 7 or more
    counts no crit. *)
Theorem out_of_range_targets
    (g : Generator) (num_dice target critical_threshold : Z) :
  0 <= num_dice ->
  (target <= 1 ->
   roll_dice_on g num_dice target (DirEnum MATCH) false 6
   = inr (num_dice, advance g (Z.to_nat num_dice))
   /\ roll_dice_on g num_dice target (DirEnum BELOW) false 6
      = inr (0, advance g (Z.to_nat num_dice)))
  /\ (7 <= target ->
      roll_dice_on g num_dice target (DirEnum MATCH) false 6
      = inr (0, advance g (Z.to_nat num_dice))
      /\ roll_dice_on g num_dice target (DirEnum BELOW) false 6
         = inr (num_dice, advance g (Z.to_nat num_dice)))
  /\ (7 <= critical_threshold ->
      exists hits,
        roll_dice_on g num_dice target (DirEnum MATCH) true critical_threshold
        = inr ((hits, 0), advance g (Z.to_nat num_dice))).
Proof.
  intros H.
  set (rolls := draws g 1 7 (Z.to_nat num_dice)).
  assert (Hlen : Z.of_nat (List.length rolls) = num_dice)
    by (unfold rolls; rewrite draws_length; lia).
  assert (Hface : forall r, In r rolls -> 1 <= r <= 6)
    by (intros r; apply face_in_range).
  rewrite !(roll_dice_on_hits _ _ _ _ H). fold rolls.
  split; [|split].
  - intros Ht. split; f_equal; f_equal.
    + rewrite np_sum_every; [exact Hlen|].
      intros r Hr. apply Z.leb_le. specialize (Hface r Hr). lia.
    + apply np_sum_none. intros r Hr. apply Z.ltb_ge.
      specialize (Hface r Hr). lia.
  - intros Ht. split; f_equal; f_equal.
    + apply np_sum_none. intros r Hr. apply Z.leb_gt.
      specialize (Hface r Hr). lia.
    + rewrite np_sum_every; [exact Hlen|].
      intros r Hr. apply Z.ltb_lt. specialize (Hface r Hr). lia.
  - intros Hc. unfold roll_dice_on. simpl as_RollDirection.
    rewrite (integers_nonneg _ _ _ _ H). fold rolls.
    eexists. f_equal. f_equal. f_equal.
    apply np_sum_none. intros r Hr. apply Z.leb_gt.
    specialize (Hface r Hr). lia.
Qed.

(** The property on 3 dice: against 1 all hit, against 7 none. *)
Lemma out_of_range_targets_witness :
  roll_dice_on (mkGenerator (fun i => Z.of_nat i) 0) 3 1 (DirEnum MATCH)
               false 6
  = inr (3, advance (mkGenerator (fun i => Z.of_nat i) 0) (Z.to_nat 3))
  /\ roll_dice_on (mkGenerator (fun i => Z.of_nat i) 0) 3 1 (DirEnum BELOW)
                  false 6
     = inr (0, advance (mkGenerator (fun i => Z.of_nat i) 0) (Z.to_nat 3)).
Proof.
  apply (out_of_range_targets (mkGenerator (fun i => Z.of_nat i) 0) 3 1 6);
    lia.
Defined.

(** X5.  On the same generator, more dice and an easier target never give
    fewer hits: MATCH hits grow with the count and as the target falls,
    BELOW hits grow with the count and as the target rises. *)
Theorem hits_monotone (g : Generator) (n1 n2 t1 t2 : Z) :
  0 <= n1 <= n2 ->
  t1 <= t2 ->
  exists m1 m2 b1 b2 g1 g2,
    roll_dice_on g n1 t2 (DirEnum MATCH) false 6 = inr (m1, g1)
    /\ roll_dice_on g n2 t1 (DirEnum MATCH) false 6 = inr (m2, g2)
    /\ m1 <= m2
    /\ roll_dice_on g n1 t1 (DirEnum BELOW) false 6 = inr (b1, g1)
    /\ roll_dice_on g n2 t2 (DirEnum BELOW) false 6 = inr (b2, g2)
    /\ b1 <= b2.
Proof.
  intros Hn Ht.
  rewrite !(roll_dice_on_hits g n1) by lia.
  rewrite !(roll_dice_on_hits g n2) by lia.
  do 6 eexists.
  split; [reflexivity|]. split; [reflexivity|]. split.
  - etransitivity;
      [|apply np_sum_draws_prefix with (n := Z.to_nat n1); lia].
    apply np_sum_map_le. intros r _ Hr.
    apply Z.leb_le in Hr. apply Z.leb_le. lia.
  - split; [reflexivity|]. split; [reflexivity|].
    etransitivity;
      [|apply np_sum_draws_prefix with (n := Z.to_nat n1); lia].
    apply np_sum_map_le. intros r _ Hr.
    apply Z.ltb_lt in Hr. apply Z.ltb_lt. lia.
Qed.

(** The property on 2 and 5 dice, targets 3 and 4. *)
Lemma hits_monotone_witness :
  exists m1 m2 b1 b2 g1 g2,
    roll_dice_on (mkGenerator (fun i => Z.of_nat i) 0) 2 4 (DirEnum MATCH)
                 false 6 = inr (m1, g1)
    /\ roll_dice_on (mkGenerator (fun i => Z.of_nat i) 0) 5 3 (DirEnum MATCH)
                    false 6 = inr (m2, g2)
    /\ m1 <= m2
    /\ roll_dice_on (mkGenerator (fun i => Z.of_nat i) 0) 2 3 (DirEnum BELOW)
                    false 6 = inr (b1, g1)
    /\ roll_dice_on (mkGenerator (fun i => Z.of_nat i) 0) 5 4 (DirEnum BELOW)
                    false 6 = inr (b2, g2)
    /\ b1 <= b2.
Proof.
  apply (hits_monotone (mkGenerator (fun i => Z.of_nat i) 0) 2 5 3 4); lia.
Defined.

(** ** Further properties of the damage intake *)

Section TakeDamageMore.

Variable self : Unit.


Lemma save_stage_value damage rend mortal w :
  0 <= damage ->
  save_stage self damage rend mortal w
  = Ok (if mortal then damage
        else count_below (if ethereal self then save self
                          else save self + rend)
                         (next_dice w damage))
       (if mortal then w else after_spawn w).
Proof.
  intros H. unfold save_stage. destruct mortal; [reflexivity|].
  destruct (ethereal self); now rewrite (roll_dice_below _ _ _ H).
Qed.

Lemma ward_stage_value x ward_ignore w :
  0 <= x ->
  ward_stage self x ward_ignore w
  = Ok (if (truthy (ward_save self) && negb ward_ignore)%bool
        then count_below (ward_save self) (next_dice w x) else x)
       (if (truthy (ward_save self) && negb ward_ignore)%bool
        then after_spawn w else w).
Proof.
  intros H. unfold ward_stage.
  destruct (truthy (ward_save self) && negb ward_ignore)%bool;
    [now rewrite (roll_dice_below _ _ _ H)|reflexivity].
Qed.

(** What a returned call has done, whatever the sign of the damage. *)
Lemma take_damage_inv_any damage rend mortal ward_ignore w r self' w' :
  take_damage self damage rend mortal ward_ignore w = Ok (r, self') w' ->
  wounds_per_model self <> 0 /\ self' = after_wounds self r.
Proof.
  unfold take_damage, bind.
  destruct (save_stage self damage rend mortal w) as [x w1|e]; [|discriminate].
  destruct (ward_stage self x ward_ignore w1) as [y w2|e]; [|discriminate].
  destruct (apply_wounds self (beacon_stage self y) w2) as [u w3|e] eqn:E;
    [|discriminate].
  apply apply_wounds_inv in E. destruct E as (Hw & -> & ->).
  unfold ret. intros H. injection H as <- <- <-. auto.
Qed.

End TakeDamageMore.



(** X7.  The save at its extremes, for damage that is not mortal on a unit
    that is not ethereal: when save + rend is 1 or less no die is below it
    and the call returns 0; when save + rend is 7 or more every die is
    below it, and with the ward out of the way (ignored, 0, or above 6) the
    call returns the whole damage, less the aura's one. *)
Theorem save_extremes
    (self : Unit) (damage rend : Z) (ward_ignore : bool) (w : World) :
  ethereal self = false ->
  0 <= damage ->
  wounds_per_model self <> 0 ->
  (save self + rend <= 1 ->
   exists w',
     take_damage self damage rend false ward_ignore w
     = Ok (0, after_wounds self 0) w')
  /\ (7 <= save self + rend ->
      ward_ignore = true \/ ward_save self = 0 \/ 6 < ward_save self ->
      exists w',
        take_damage self damage rend false ward_ignore w
        = Ok (beacon_stage self damage,
              after_wounds self (beacon_stage self damage)) w').
Proof.
  intros He Hd Hw.
  pose proof (next_dice_length w damage Hd) as Hl.
  split.
  - intros Hs. unfold take_damage, bind.
    rewrite (save_stage_value self _ _ _ _ Hd), He.
    assert (E : count_below (save self + rend) (next_dice w damage) = 0).
    { unfold count_below, next_dice. apply np_sum_none. intros r Hr.
      apply face_in_range in Hr. apply Z.ltb_ge. lia. }
    rewrite E, (ward_stage_value self) by lia.
    assert (E0 : forall w0, count_below (ward_save self) (next_dice w0 0) = 0)
      by reflexivity.
    rewrite E0.
    replace (beacon_stage self (if (_ && _)%bool then 0 else 0)) with 0
      by (unfold beacon_stage;
          destruct (_ && _)%bool; destruct (beacon_of_protection self);
          reflexivity).
    rewrite (apply_wounds_ok _ _ _ Hw). eexists. reflexivity.
  - intros Hs Hward. unfold take_damage, bind.
    rewrite (save_stage_value self _ _ _ _ Hd), He.
    rewrite (count_below_next_dice (save self + rend) w damage
               ltac:(lia) Hd).
    rewrite (ward_stage_value self _ _ _ Hd).
    assert (E : (if (truthy (ward_save self) && negb ward_ignore)%bool
                 then count_below (ward_save self)
                                  (next_dice (after_spawn w) damage)
                 else damage) = damage).
    { destruct (truthy (ward_save self) && negb ward_ignore)%bool eqn:A;
        [|reflexivity].
      apply andb_true_iff in A. destruct A as [A1 A2].
      destruct Hward as [->|[H0|H6]]; [discriminate| |].
      - unfold truthy in A1. rewrite H0 in A1. discriminate.
      - now apply count_below_next_dice. }
    rewrite E, (apply_wounds_ok _ _ _ Hw). eexists. reflexivity.
Qed.

(** The property on the chaos knights (save 3, no ward): rend -2 saves
    all 5 wounds, rend 4 lets all 5 through. *)
Lemma save_extremes_witness :
  (exists w',
      take_damage Scenario.chaos_knights 5 (-2) false false
                  (Scenario.constant_world 0 0)
      = Ok (0, after_wounds Scenario.chaos_knights 0) w')
  /\ (exists w',
         take_damage Scenario.chaos_knights 5 4 false false
                     (Scenario.constant_world 0 0)
         = Ok (5, after_wounds Scenario.chaos_knights 5) w').
Proof.
  split.
  - apply (save_extremes Scenario.chaos_knights 5 (-2) false
             (Scenario.constant_world 0 0)).
    + reflexivity.
    + lia.
    + simpl. lia.
    + simpl. lia.
  - apply (save_extremes Scenario.chaos_knights 5 4 false
             (Scenario.constant_world 0 0)).
    + reflexivity.
    + lia.
    + simpl. lia.
    + simpl. lia.
    + right. right. simpl. lia.
Defined.

(** X8.  Whatever its arguments, a [take_damage] call that returns leaves
    the unit's profile (name, per-model health, save, ward, flags, weapons)
    as it was, takes exactly the returned amount from the health, leaves a
    model count of 0 or more, and never brings a dead unit back: the alive
    flag can only go from true to false. *)
Theorem take_damage_never_revives
    (self : Unit) (damage rend : Z) (mortal ward_ignore : bool) (w : World)
    (r : Z) (self' : Unit) (w' : World) :
  take_damage self damage rend mortal ward_ignore w = Ok (r, self') w' ->
  same_profile self self'
  /\ total_wounds self' = total_wounds self - r
  /\ 0 <= models self'
  /\ (unit_alive self = false -> unit_alive self' = false)
  /\ (models self' = 0 -> unit_alive self' = false).
Proof.
  intros H. apply take_damage_inv_any in H. destruct H as [_ ->].
  split; [repeat split|]. split; [reflexivity|].
  split; [apply after_wounds_models_nonneg|].
  unfold after_wounds. simpl. split.
  - intros ->. now destruct (_ <=? 0).
  - intros ->. reflexivity.
Qed.

(** The property on a healing call: -3 mortal wounds, ward ignored. *)
Lemma take_damage_never_revives_witness :
  same_profile Scenario.base_wardens
               (after_wounds Scenario.base_wardens (-3))
  /\ total_wounds (after_wounds Scenario.base_wardens (-3))
     = total_wounds Scenario.base_wardens - -3
  /\ 0 <= models (after_wounds Scenario.base_wardens (-3))
  /\ (unit_alive Scenario.base_wardens = false ->
      unit_alive (after_wounds Scenario.base_wardens (-3)) = false)
  /\ (models (after_wounds Scenario.base_wardens (-3)) = 0 ->
      unit_alive (after_wounds Scenario.base_wardens (-3)) = false).
Proof.
  apply (take_damage_never_revives Scenario.base_wardens (-3) 0 true true
           (Scenario.constant_world 0 0) (-3)
           (after_wounds Scenario.base_wardens (-3))
           (Scenario.constant_world 0 0)).
  reflexivity.
Defined.

(** X9.  With a positive per-model health, the model count after a
    returned call is the health left divided by the per-model health and
    rounded up, and 0 when no health is left: the models are the fewest
    that can hold the health. *)
Theorem models_round_up
    (self : Unit) (damage rend : Z) (mortal ward_ignore : bool) (w : World)
    (r : Z) (self' : Unit) (w' : World) :
  0 < wounds_per_model self ->
  take_damage self damage rend mortal ward_ignore w = Ok (r, self') w' ->
  (total_wounds self' <= 0 -> models self' = 0)
  /\ (0 < total_wounds self' ->
      (models self' - 1) * wounds_per_model self < total_wounds self'
      /\ total_wounds self' <= models self' * wounds_per_model self).
Proof.
  intros Hw H. apply take_damage_inv_any in H. destruct H as [_ ->].
  unfold after_wounds. simpl.
  set (t := total_wounds self - r).
  set (d := wounds_per_model self) in *.
  pose proof (Z.div_mod t d ltac:(lia)) as E.
  pose proof (Z.mod_pos_bound t d Hw) as B.
  split.
  - intros Ht. now apply recount_zero_iff.
  - intros Ht.
    destruct (0 <? t mod d) eqn:P;
      [apply Z.ltb_lt in P | apply Z.ltb_ge in P]; nia.
Qed.

(** The property on the chaos knights (4 wounds a model) after 5 mortal
    wounds with the ward ignored: 35 wounds in 9 models. *)
Lemma models_round_up_witness :
  (total_wounds (after_wounds Scenario.chaos_knights 5) <= 0 ->
   models (after_wounds Scenario.chaos_knights 5) = 0)
  /\ (0 < total_wounds (after_wounds Scenario.chaos_knights 5) ->
      (models (after_wounds Scenario.chaos_knights 5) - 1)
      * wounds_per_model Scenario.chaos_knights
      < total_wounds (after_wounds Scenario.chaos_knights 5)
      /\ total_wounds (after_wounds Scenario.chaos_knights 5)
         <= models (after_wounds Scenario.chaos_knights 5)
            * wounds_per_model Scenario.chaos_knights).
Proof.
  apply (models_round_up Scenario.chaos_knights 5 0 true true
           (Scenario.constant_world 0 0) 5
           (after_wounds Scenario.chaos_knights 5)
           (Scenario.constant_world 0 0)).
  - simpl. lia.
  - reflexivity.
Defined.

(** X10.  With a positive per-model health, two calls of non-negative
    damage in a row leave the unit as one call would that let through the
    sum of what the two let through: the state depends on the total of the
    unsaved wounds, not on how they arrive. *)
Theorem take_damage_twice_additive
    (self : Unit) (d1 rend1 d2 rend2 : Z) (m1 i1 m2 i2 : bool)
    (w w1 w2 : World) (r1 r2 : Z) (u1 u2 : Unit) :
  0 < wounds_per_model self ->
  0 <= d1 -> 0 <= d2 ->
  take_damage self d1 rend1 m1 i1 w = Ok (r1, u1) w1 ->
  take_damage u1 d2 rend2 m2 i2 w1 = Ok (r2, u2) w2 ->
  u2 = after_wounds self (r1 + r2).
Proof.
  intros Hw Hd1 Hd2 E1 E2.
  apply take_damage_inv in E1; [|exact Hd1].
  destruct E1 as (_ & -> & Hr1).
  apply take_damage_inv in E2; [|exact Hd2].
  destruct E2 as (_ & -> & Hr2).
  unfold after_wounds. simpl.
  replace (total_wounds self - r1 - r2) with (total_wounds self - (r1 + r2))
    by lia.
  set (t1 := total_wounds self - r1).
  set (t2 := total_wounds self - (r1 + r2)).
  set (d := wounds_per_model self) in *.
  set (n1 := Z.max 0 (t1 / d + (if 0 <? t1 mod d then 1 else 0))).
  set (n2 := Z.max 0 (t2 / d + (if 0 <? t2 mod d then 1 else 0))).
  f_equal.
  destruct (n2 <=? 0) eqn:L2; [reflexivity|].
  destruct (n1 <=? 0) eqn:L1; [|reflexivity].
  apply Z.leb_le in L1. apply Z.leb_gt in L2.
  assert (Hn1 : n1 = 0) by (subst n1; lia).
  apply (recount_zero_iff t1 d Hw) in Hn1.
  assert (Hn2 : n2 = 0) by (apply (recount_zero_iff t2 d Hw); subst t1 t2; lia).
  lia.
Qed.

(** The property on the wardens: 2 mortal wounds, then 3 more, the ward
    ignored both times. *)
Lemma take_damage_twice_additive_witness :
  after_wounds (after_wounds Scenario.base_wardens 2) 3
  = after_wounds Scenario.base_wardens (2 + 3).
Proof.
  apply (take_damage_twice_additive Scenario.base_wardens 2 0 3 0
           true true true true
           (Scenario.constant_world 0 0) (Scenario.constant_world 0 0)
           (Scenario.constant_world 0 0) 2 3
           (after_wounds Scenario.base_wardens 2)
           (after_wounds (after_wounds Scenario.base_wardens 2) 3)).
  - simpl. lia.
  - lia.
  - lia.
  - reflexivity.
  - reflexivity.
Defined.



(** ** Further properties of the attack resolution *)

Section DealDamageMore.








End DealDamageMore.





Section ConstantDice.

Lemma draws_constant g low high c n :
  (forall i, stream g (cursor g + i) = c) ->
  draws g low high n = repeat (low + c mod (high - low)) n.
Proof.
  intros H. unfold draws.
  rewrite (map_ext _ (fun _ => low + c mod (high - low)))
    by (intros i; now rewrite H).
  generalize 0%nat. induction n as [|n IH]; intros k; simpl;
    [reflexivity|]. now rewrite IH.
Qed.

Lemma count_at_least_repeat t f n :
  count_at_least t (repeat f n) = if t <=? f then Z.of_nat n else 0.
Proof.
  unfold count_at_least. induction n as [|n IH].
  - now destruct (t <=? f).
  - cbn [repeat map np_sum]. rewrite IH. destruct (t <=? f); lia.
Qed.

Lemma next_dice_constant w face n :
  1 <= face <= 6 ->
  (forall i, os_entropy w (os_calls w) i = face - 1) ->
  next_dice w n = repeat face (Z.to_nat n).
Proof.
  intros Hf H. unfold next_dice.
  rewrite (draws_constant _ 1 7 (face - 1)) by (intros i; apply H).
  f_equal. rewrite Z.mod_small; lia.
Qed.

End ConstantDice.

(** X14.  Exploding crits come first: for a weapon with [crit_explode]
    set, whether or not [crit_mortals] is set too, no mortal tuple is ever
    added; the crits are added to the hits, the wound roll is made on
    [hits + crits] dice, which can be up to twice the attacks, and the one
    tuple that can follow is the normal one.  The turn raises only on a
    negative number of attacks. *)
Theorem crit_explode_events
    (self : Unit) (hit_modifier wound_modifier : Z) (weapon : Weapon)
    (damage_list : list DamageEvent) (w : World) :
  crit_explode weapon = true ->
  let hit_dice := next_dice w (weapon_attacks self weapon) in
  let hits := count_at_least (to_hit weapon - hit_modifier) hit_dice in
  let crits := count_at_least (crit_threshold weapon) hit_dice in
  let wound_dice := next_dice (after_spawn w) (hits + crits) in
  let wounds := count_at_least (to_wound weapon - wound_modifier) wound_dice in
  deal_damage_weapon self hit_modifier wound_modifier weapon damage_list w
  = (if weapon_attacks self weapon <? 0 then Raise ValueError
     else Ok (damage_list ++ normal_events weapon wounds)
             (after_spawn (after_spawn w)))
  /\ Z.of_nat (List.length wound_dice) = hits + crits
  /\ hits + crits <= 2 * Z.max 0 (weapon_attacks self weapon)
  /\ 0 <= wounds <= hits + crits.
Proof.
  intros Hx hit_dice hits crits wound_dice wounds.
  set (n := weapon_attacks self weapon) in *.
  pose proof (count_at_least_bounds (to_hit weapon - hit_modifier) hit_dice)
    as Hh.
  pose proof (count_at_least_bounds (crit_threshold weapon) hit_dice) as Hc.
  fold hits in Hh. fold crits in Hc.
  assert (Hl : Z.of_nat (List.length hit_dice) = Z.max 0 n).
  { unfold hit_dice, next_dice. rewrite draws_length. lia. }
  assert (Hp : 0 <= hits + crits) by lia.
  pose proof (next_dice_length (after_spawn w) _ Hp) as Hwl.
  fold wound_dice in Hwl.
  pose proof (count_at_least_bounds (to_wound weapon - wound_modifier)
                wound_dice) as Hw.
  fold wounds in Hw.
  split; [|split; [exact Hwl|split; lia]].
  unfold deal_damage_weapon, hit_sequence. rewrite Hx.
  destruct (n <? 0) eqn:L; [apply Z.ltb_lt in L|apply Z.ltb_ge in L].
  - unfold bind. now rewrite (roll_dice_negative _ _ _ _ _ _ _ L).
  - unfold bind. rewrite (roll_dice_match_crits _ _ _ _ L).
    unfold ret. cbv beta iota.
    fold hit_dice. fold hits. fold crits.
    rewrite (roll_dice_match _ _ _ Hp). fold wound_dice. fold wounds.
    unfold normal_events. f_equal.
    destruct (0 <? wounds); [reflexivity|now rewrite app_nil_r].
Qed.

(** The property on a lance made to explode, with [crit_mortals] left
    set: 31 attacks, all sixes, 62 wound dice, one normal tuple. *)
Lemma crit_explode_events_witness :
  deal_damage_weapon Scenario.dawnriders 0 0
    (mkWeapon "Dawn Lance" 3 3 4 1 2 false 6 true true) []
    (Scenario.constant_world 5 0)
  = Ok [(124, 1, "normal"%string)]
       (after_spawn (after_spawn (Scenario.constant_world 5 0))).
Proof.
  exact (proj1 (crit_explode_events Scenario.dawnriders 0 0
                  (mkWeapon "Dawn Lance" 3 3 4 1 2 false 6 true true) []
                  (Scenario.constant_world 5 0) eq_refl)).
Defined.

(** X15.  A critical threshold below the effective hit target can bring
    the turn down: for a weapon whose crits deal mortal damage, with at
    least one attack, when every hit die shows a face that reaches the
    critical threshold but not the hit target, the crits are taken from no
    hits, the wound roll is asked for a negative count, and the turn raises
    [ValueError]. *)
Theorem crit_below_hit_target_raises
    (self : Unit) (hit_modifier wound_modifier : Z) (weapon : Weapon)
    (damage_list : list DamageEvent) (w : World) (face : Z) :
  crit_explode weapon = false ->
  crit_mortals weapon = true ->
  1 <= weapon_attacks self weapon ->
  1 <= face <= 6 ->
  crit_threshold weapon <= face < to_hit weapon - hit_modifier ->
  (forall i, os_entropy w (os_calls w) i = face - 1) ->
  deal_damage_weapon self hit_modifier wound_modifier weapon damage_list w
  = Raise ValueError.
Proof.
  intros Hx Hm Hn Hf Hthr Hw.
  rewrite (deal_damage_weapon_mortals self hit_modifier wound_modifier
             weapon Hx Hm damage_list w ltac:(lia)).
  rewrite (next_dice_constant w face _ Hf Hw), !count_at_least_repeat.
  destruct (to_hit weapon - hit_modifier <=? face) eqn:A;
    [apply Z.leb_le in A; lia|].
  destruct (crit_threshold weapon <=? face) eqn:B;
    [|apply Z.leb_gt in B; lia].
  destruct (0 - Z.of_nat (Z.to_nat (weapon_attacks self weapon)) <? 0) eqn:C;
    [reflexivity|apply Z.ltb_ge in C; lia].
Qed.

(** The property on a pike that hits on 5 and crits on 3, dice of 4. *)
Lemma crit_below_hit_target_raises_witness :
  deal_damage_weapon Scenario.base_wardens 0 0
    (mkWeapon "Pike" 2 5 4 1 1 false 3 true false) []
    (Scenario.constant_world 3 0)
  = Raise ValueError.
Proof.
  apply (crit_below_hit_target_raises Scenario.base_wardens 0 0
           (mkWeapon "Pike" 2 5 4 1 1 false 3 true false) []
           (Scenario.constant_world 3 0) 4).
  - reflexivity.
  - reflexivity.
  - vm_compute. discriminate.
  - lia.
  - simpl. lia.
  - intros i. reflexivity.
Defined.

(** ** Further properties of the simulation *)

Section Strikes.




Lemma after_wounds_dead_when_spent u r :
  0 < wounds_per_model u -> dead_when_spent (after_wounds u r).
Proof.
  intros Hw Ht. unfold after_wounds in *. simpl in *.
  apply (recount_zero_iff _ _ Hw) in Ht. now rewrite Ht.
Qed.

Lemma apply_damage_list_spent dl :
  forall target w target' w',
    0 < wounds_per_model target ->
    dead_when_spent target ->
    apply_damage_list target dl w = Ok target' w' ->
    dead_when_spent target'.
Proof.
  induction dl as [|[[damage rend] damage_type] dl IH];
    intros target w target' w' Hw Hs H.
  - injection H as <- _. exact Hs.
  - simpl in H. unfold bind in H.
    destruct (String.eqb damage_type "mortal");
      match type of H with
      | context [take_damage ?a ?b ?c ?d ?e ?f] =>
        destruct (take_damage a b c d e f) as [[r u1] w1|e1] eqn:E;
          [|discriminate];
        apply take_damage_inv_any in E; destruct E as (_ & ->);
        apply IH in H;
          [exact H | exact Hw | now apply after_wounds_dead_when_spent]
      end.
Qed.


Lemma strike_spent striker target hm wm w target' w' :
  0 < wounds_per_model target ->
  dead_when_spent target ->
  strike striker target hm wm w = Ok target' w' ->
  dead_when_spent target'.
Proof.
  intros Hw Hs H. unfold strike in H.
  destruct (unit_alive striker); [|injection H as <- _; exact Hs].
  unfold bind in H.
  destruct (deal_damage striker hm wm w) as [dl w1|e] eqn:E; [|discriminate].
  eapply apply_damage_list_spent; eauto.
Qed.

Lemma strike_dead striker target hm wm w :
  unit_alive striker = false ->
  strike striker target hm wm w = Ok target w.
Proof. intros H. unfold strike. now rewrite H. Qed.

End Strikes.

Section Trials.

Variables attacker defender : Unit.
Variable p : Q.
Variables ahm awm dhm dwm : Z.

(** What one trial has done when it returns. *)
Lemma simulation_step_inv st w st' w' :
  simulation_step attacker defender p ahm awm dhm dwm st w = Ok st' w' ->
  exists a' d' w0 w1,
    attacker_wounds_remaining st'
    = attacker_wounds_remaining st ++ [total_wounds a']
    /\ defender_wounds_remaining st'
       = defender_wounds_remaining st ++ [total_wounds d']
    /\ ((inverted_fights st' = inverted_fights st + 1
         /\ strike (fresh_copy defender) (fresh_copy attacker) dhm dwm w0
            = Ok a' w1
         /\ strike a' (fresh_copy defender) ahm awm w1 = Ok d' w')
        \/ (inverted_fights st' = inverted_fights st
            /\ strike (fresh_copy attacker) (fresh_copy defender) ahm awm w0
               = Ok d' w1
            /\ strike d' (fresh_copy attacker) dhm dwm w1 = Ok a' w')).
Proof.
  unfold simulation_step, np_random_random. unfold bind at 1. cbv zeta.
  set (w0 := {| os_entropy := os_entropy w; os_calls := os_calls w;
                legacy := advance (legacy w) 1 |}).
  destruct (Qltb _ p); unfold bind.
  - destruct (strike (fresh_copy defender) (fresh_copy attacker) dhm dwm w0)
      as [a' w1|e] eqn:E1; [|discriminate].
    destruct (strike a' (fresh_copy defender) ahm awm w1)
      as [d' w2|e] eqn:E2; [|discriminate].
    unfold ret. intros H. injection H as <- <-.
    exists a', d', w0, w1. simpl. auto 10.
  - destruct (strike (fresh_copy attacker) (fresh_copy defender) ahm awm w0)
      as [d' w1|e] eqn:E1; [|discriminate].
    destruct (strike d' (fresh_copy attacker) dhm dwm w1)
      as [a' w2|e] eqn:E2; [|discriminate].
    unfold ret. intros H. injection H as <- <-.
    exists a', d', w0, w1. simpl. auto 10.
Qed.

(** A property of every pair of samples that one trial adds holds of all
    the pairs of a returned run. *)
Lemma simulation_loop_pairs (P : Z -> Z -> Prop) :
  (forall st w st' w' a' d',
      simulation_step attacker defender p ahm awm dhm dwm st w = Ok st' w' ->
      attacker_wounds_remaining st'
      = attacker_wounds_remaining st ++ [a'] ->
      defender_wounds_remaining st'
      = defender_wounds_remaining st ++ [d'] ->
      P a' d') ->
  forall n st w st' w',
    Forall2 P (attacker_wounds_remaining st) (defender_wounds_remaining st) ->
    simulation_loop attacker defender p ahm awm dhm dwm n st w = Ok st' w' ->
    Forall2 P (attacker_wounds_remaining st') (defender_wounds_remaining st')
    /\ List.length (attacker_wounds_remaining st')
       = (List.length (attacker_wounds_remaining st) + n)%nat.
Proof.
  intros Hstep. induction n as [|n IH]; intros st w st' w' Hst H.
  - injection H as <- _. split; [exact Hst|lia].
  - simpl in H. unfold bind in H.
    destruct (simulation_step attacker defender p ahm awm dhm dwm st w)
      as [st1 w1|e] eqn:E; [|discriminate].
    pose proof (simulation_step_inv _ _ _ _ E)
      as (a' & d' & w0 & w2 & Ha & Hd & _).
    pose proof (Hstep _ _ _ _ _ _ E Ha Hd) as HP.
    apply IH in H.
    + destruct H as [H1 H2]. split; [exact H1|].
      rewrite H2, Ha, length_app. simpl. lia.
    + rewrite Ha, Hd. apply Forall2_app; [exact Hst|].
      constructor; [exact HP|constructor].
Qed.

End Trials.

Section Samples.



Lemma Qltb_monotone r p p' :
  (p <= p')%Q -> Qltb r p = true -> Qltb r p' = true.
Proof.
  unfold Qltb. intros Hp H. apply negb_true_iff in H. apply negb_true_iff.
  destruct (Qle_bool p' r) eqn:E; [|reflexivity].
  apply Qle_bool_iff in E.
  assert (Hle : (p <= r)%Q) by (eapply Qle_trans; eauto).
  apply Qle_bool_iff in Hle. congruence.
Qed.

Lemma inversions_bounds g p n : 0 <= inversions g p n <= Z.of_nat n.
Proof.
  unfold inversions, order_rolls.
  pose proof (np_sum_bounds
                (map (fun r => Qltb r p)
                   (map (fun i => Qmake (stream g (cursor g + i) mod 2 ^ 53)
                                        (2 ^ 53)) (seq 0 n)))) as H.
  now rewrite !length_map, length_seq in H.
Qed.

Lemma inversions_monotone g p p' n :
  (p <= p')%Q -> inversions g p n <= inversions g p' n.
Proof.
  intros Hp. unfold inversions. apply np_sum_map_le.
  intros r _. now apply Qltb_monotone.
Qed.


End Samples.

(** X16.  A returned run holds one sample for each side per trial.  With
    a trial count of 0 or less the loop is not entered: the run returns
    at once, both means are the [nan] of an empty list and the count is 0.
    With at least one trial both means are numbers. *)
Theorem one_sample_per_trial
    (attacker defender : Unit) (p : Q) (n ahm awm dhm dwm : Z) (w : World) :
  (n <= 0 ->
   combat_simulation attacker defender p n ahm awm dhm dwm w
   = Ok (None, None, 0) w)
  /\ (forall st w',
        combat_samples attacker defender p n ahm awm dhm dwm w = Ok st w' ->
        List.length (attacker_wounds_remaining st) = Z.to_nat n
        /\ List.length (defender_wounds_remaining st) = Z.to_nat n)
  /\ (1 <= n ->
      forall a d inv w',
        combat_simulation attacker defender p n ahm awm dhm dwm w
        = Ok (a, d, inv) w' ->
        a <> None /\ d <> None).
Proof.
  assert (Hlen : forall st w',
             combat_samples attacker defender p n ahm awm dhm dwm w
             = Ok st w' ->
             List.length (attacker_wounds_remaining st) = Z.to_nat n
             /\ List.length (defender_wounds_remaining st) = Z.to_nat n).
  { intros st w' H. unfold combat_samples in H.
    apply (simulation_loop_pairs attacker defender p ahm awm dhm dwm
             (fun _ _ => True)) in H;
      [|auto|constructor].
    destruct H as [F L]. simpl in L.
    split; [exact L|]. rewrite <- L. symmetry.
    eapply Forall2_length; eauto. }
  split; [|split; [exact Hlen|]].
  - intros Hn. unfold combat_simulation, combat_samples, bind.
    replace (Z.to_nat n) with 0%nat by lia. reflexivity.
  - intros Hn a d inv w' H. unfold combat_simulation, bind in H.
    destruct (combat_samples attacker defender p n ahm awm dhm dwm w)
      as [st w1|e] eqn:E; [|discriminate].
    destruct (Hlen st w1 eq_refl) as [La Ld].
    unfold ret in H. injection H as <- <- _ _.
    destruct (attacker_wounds_remaining st);
      destruct (defender_wounds_remaining st); simpl in *;
      try lia; split; discriminate.
Qed.

(** The property with no trial to run. *)
Lemma one_sample_per_trial_witness :
  combat_simulation Scenario.dawnriders Scenario.chaos_knights 1 0 0 0 0 0
                    (Scenario.constant_world 5 0)
  = Ok (None, None, 0) (Scenario.constant_world 5 0).
Proof.
  apply (one_sample_per_trial Scenario.dawnriders Scenario.chaos_knights 1 0
           0 0 0 0 (Scenario.constant_world 5 0)).
  lia.
Defined.

(** X17.  Whatever the inversion probability, the returned count of
    inverted trials lies between 0 and the number of trials, and on the
    same initiative draws it does not fall when the probability rises. *)
Theorem inverted_fights_bounds
    (attacker defender : Unit) (p p' : Q) (n ahm awm dhm dwm : Z)
    (w1 w2 : World) (a d : option Q) (inv : Z) (w1' : World) :
  combat_simulation attacker defender p n ahm awm dhm dwm w1
  = Ok (a, d, inv) w1' ->
  0 <= inv <= Z.max 0 n
  /\ ((p <= p')%Q ->
      legacy w2 = legacy w1 ->
      forall a' d' inv' w2',
        combat_simulation attacker defender p' n ahm awm dhm dwm w2
        = Ok (a', d', inv') w2' ->
        inv <= inv').
Proof.
  intros H. apply combat_simulation_inverted in H. subst inv. split.
  - pose proof (inversions_bounds (legacy w1) p (Z.to_nat n)). lia.
  - intros Hp Hl a' d' inv' w2' H'.
    apply combat_simulation_inverted in H'. subst inv'. rewrite Hl.
    now apply inversions_monotone.
Qed.

(** The property on two trials at probability one half. *)
Lemma inverted_fights_bounds_witness :
  0 <= 0 <= Z.max 0 2.
Proof.
  apply (inverted_fights_bounds Scenario.chaos_knights Scenario.base_wardens
           (1 # 2) 1 2 0 0 0 0
           (Scenario.constant_world 3 (2 ^ 52))
           (Scenario.constant_world 3 (2 ^ 52))
           (Some (80 # 2)) (Some (-22 # 2)) 0
           (mkWorld (fun _ _ => 3) 12 (mkGenerator (fun _ => 2 ^ 52) 2))).
  vm_compute. reflexivity.
Defined.



(** X19.  A side wiped out by the first strike does not strike back.  Both
    sides having a positive per-model health and at least one model: at
    inversion probability 0, in every trial that leaves the defender with
    no health the attacker ends with all of its own; at probability 1 the
    same holds with the sides exchanged. *)
Theorem wiped_out_side_does_not_strike_back
    (attacker defender : Unit) (n ahm awm dhm dwm : Z) (w : World) :
  0 < wounds_per_model attacker -> 1 <= models attacker ->
  0 < wounds_per_model defender -> 1 <= models defender ->
  (forall st w',
      combat_samples attacker defender 0 n ahm awm dhm dwm w = Ok st w' ->
      Forall2 (fun a d =>
                 d <= 0 -> a = models attacker * wounds_per_model attacker)
              (attacker_wounds_remaining st) (defender_wounds_remaining st))
  /\ (forall st w',
        combat_samples attacker defender 1 n ahm awm dhm dwm w = Ok st w' ->
        Forall2 (fun a d =>
                   a <= 0 -> d = models defender * wounds_per_model defender)
                (attacker_wounds_remaining st)
                (defender_wounds_remaining st)).
Proof.
  intros Hwa Hma Hwd Hmd.
  assert (Sa : dead_when_spent (fresh_copy attacker))
    by (unfold dead_when_spent; simpl; nia).
  assert (Sd : dead_when_spent (fresh_copy defender))
    by (unfold dead_when_spent; simpl; nia).
  split; intros st w' H; unfold combat_samples in H.
  - apply (simulation_loop_pairs attacker defender 0 ahm awm dhm dwm
             (fun a d => d <= 0 ->
                         a = models attacker * wounds_per_model attacker))
      in H; [apply H| |constructor].
    intros st0 w0 st1 w1 a' d' E Ea Ed.
    pose proof (simulation_step_inverted _ _ _ _ _ _ _ _ _ _ _ E) as [_ I].
    rewrite order_roll_not_below_zero in I.
    apply simulation_step_inv in E.
    destruct E as (ua & ud & wa & wb & Ea' & Ed' & E).
    rewrite Ea in Ea'. apply app_inv_head in Ea'. injection Ea' as ->.
    rewrite Ed in Ed'. apply app_inv_head in Ed'. injection Ed' as ->.
    destruct E as [(I' & _)|(_ & S1 & S2)]; [lia|].
    intros Hspent.
    pose proof (strike_spent _ (fresh_copy defender) _ _ _ _ _
                  Hwd Sd S1 Hspent) as Hdead.
    rewrite (strike_dead _ _ _ _ _ Hdead) in S2.
    injection S2 as <- _. reflexivity.
  - apply (simulation_loop_pairs attacker defender 1 ahm awm dhm dwm
             (fun a d => a <= 0 ->
                         d = models defender * wounds_per_model defender))
      in H; [apply H| |constructor].
    intros st0 w0 st1 w1 a' d' E Ea Ed.
    pose proof (simulation_step_inverted _ _ _ _ _ _ _ _ _ _ _ E) as [_ I].
    rewrite order_roll_below_one in I.
    apply simulation_step_inv in E.
    destruct E as (ua & ud & wa & wb & Ea' & Ed' & E).
    rewrite Ea in Ea'. apply app_inv_head in Ea'. injection Ea' as ->.
    rewrite Ed in Ed'. apply app_inv_head in Ed'. injection Ed' as ->.
    destruct E as [(_ & S1 & S2)|(I' & _)]; [|lia].
    intros Hspent.
    pose proof (strike_spent _ (fresh_copy attacker) _ _ _ _ _
                  Hwa Sa S1 Hspent) as Hdead.
    rewrite (strike_dead _ _ _ _ _ Hdead) in S2.
    injection S2 as <- _. reflexivity.
Qed.

(** The property on one trial of the dawnriders against the chaos knights,
    dice of 6: the knights end at -33 and the dawnriders keep their 30. *)
Lemma wiped_out_side_does_not_strike_back_witness :
  Forall2 (fun a d => d <= 0 -> a = 10 * 3) [30] [-33].
Proof.
  apply (proj1 (wiped_out_side_does_not_strike_back
                  Scenario.dawnriders Scenario.chaos_knights 1 0 0 0 0
                  (Scenario.constant_world 5 0)
                  ltac:(simpl; lia) ltac:(simpl; lia)
                  ltac:(simpl; lia) ltac:(simpl; lia))
               {| attacker_wounds_remaining := [30];
                  defender_wounds_remaining := [-33];
                  inverted_fights := 0 |}
               (mkWorld (fun _ _ => 5) 10 (mkGenerator (fun _ => 0) 1))).
  vm_compute. reflexivity.
Defined.

Section Mirror.

Variables attacker defender : Unit.
Variables ahm awm dhm dwm : Z.

Lemma simulation_step_mirror st i w :
  simulation_step attacker defender 1 ahm awm dhm dwm
    {| attacker_wounds_remaining := defender_wounds_remaining st;
       defender_wounds_remaining := attacker_wounds_remaining st;
       inverted_fights := i |} w
  = match simulation_step defender attacker 0 dhm dwm ahm awm st w with
    | Ok st' w' =>
      Ok {| attacker_wounds_remaining := defender_wounds_remaining st';
            defender_wounds_remaining := attacker_wounds_remaining st';
            inverted_fights := i + 1 |} w'
    | Raise e => Raise e
    end.
Proof.
  unfold simulation_step, np_random_random, bind. cbv beta iota zeta.
  rewrite order_roll_below_one, order_roll_not_below_zero.
  set (w0 := {| os_entropy := os_entropy w; os_calls := os_calls w;
                legacy := advance (legacy w) 1 |}).
  destruct (strike (fresh_copy defender) (fresh_copy attacker) dhm dwm w0)
    as [a' w1|e]; [|reflexivity].
  destruct (strike a' (fresh_copy defender) ahm awm w1)
    as [d' w2|e]; reflexivity.
Qed.

Lemma simulation_loop_mirror n :
  forall st i w,
    simulation_loop attacker defender 1 ahm awm dhm dwm n
      {| attacker_wounds_remaining := defender_wounds_remaining st;
         defender_wounds_remaining := attacker_wounds_remaining st;
         inverted_fights := i |} w
    = match simulation_loop defender attacker 0 dhm dwm ahm awm n st w with
      | Ok st' w' =>
        Ok {| attacker_wounds_remaining := defender_wounds_remaining st';
              defender_wounds_remaining := attacker_wounds_remaining st';
              inverted_fights := i + Z.of_nat n |} w'
      | Raise e => Raise e
      end.
Proof.
  induction n as [|n IH]; intros st i w.
  - simpl. unfold ret. now rewrite Z.add_0_r.
  - cbn [simulation_loop]. unfold bind at 1 2.
    rewrite simulation_step_mirror.
    destruct (simulation_step defender attacker 0 dhm dwm ahm awm st w)
      as [st1 w1|e]; [|reflexivity].
    rewrite IH.
    destruct (simulation_loop defender attacker 0 dhm dwm ahm awm n st1 w1)
      as [st2 w2|e]; [|reflexivity].
    do 2 f_equal. lia.
Qed.

End Mirror.

(** X20.  Inverting every trial is exchanging the sides: a run at
    inversion probability 1 is the run at probability 0 of the defender as
    attacker and the attacker as defender, with the modifiers following
    their sides, on the same world.  Both raise alike, or both return, the
    lists of samples exchanged and the same world left. *)
Theorem inversion_exchanges_sides
    (attacker defender : Unit) (n ahm awm dhm dwm : Z) (w : World) :
  combat_samples attacker defender 1 n ahm awm dhm dwm w
  = mirror_run n (combat_samples defender attacker 0 n dhm dwm ahm awm w).
Proof.
  unfold combat_samples.
  pose proof (simulation_loop_mirror attacker defender ahm awm dhm dwm
                (Z.to_nat n)
                {| attacker_wounds_remaining := [];
                   defender_wounds_remaining := [];
                   inverted_fights := 0 |} 0 w) as M.
  cbn [attacker_wounds_remaining defender_wounds_remaining] in M.
  rewrite M. unfold mirror_run.
  destruct (simulation_loop defender attacker 0 dhm dwm ahm awm (Z.to_nat n)
              _ w) as [st w'|e] eqn:E; [|reflexivity].
  apply simulation_loop_inverted in E. rewrite inversions_zero in E.
  simpl in E. rewrite E. do 2 f_equal. lia.
Qed.

(** ** The page classifier *)

Section PageClassifier.

Import PdfOpener.

Variable re_search : string -> bool.

Lemma classify_pages_spec texts :
  forall k units delete_pages,
    classify_pages re_search texts k units delete_pages
    = (units ++ pages_where re_search true texts k,
       delete_pages ++ pages_where re_search false texts k).
Proof.
  induction texts as [|text rest IH]; intros k units delete_pages; simpl.
  - now rewrite !app_nil_r.
  - destruct (re_search text); simpl; rewrite IH, <- app_assoc; reflexivity.
Qed.

Lemma pages_where_in b texts :
  forall k i,
    In i (pages_where re_search b texts k)
    <-> (k <= i)%nat
        /\ exists text, nth_error texts (i - k) = Some text
                        /\ re_search text = b.
Proof.
  induction texts as [|text rest IH]; intros k i; simpl.
  - split; [contradiction|]. intros (_ & t & H & _).
    now destruct (i - k)%nat.
  - assert (Hrest : In i (pages_where re_search b rest (S k))
                    <-> (S k <= i)%nat
                        /\ exists t, nth_error rest (i - S k) = Some t
                                     /\ re_search t = b) by apply IH.
    assert (Hshift : (S k <= i)%nat ->
                     nth_error (text :: rest) (i - k) = nth_error rest (i - S k)).
    { intros H. replace (i - k)%nat with (S (i - S k)) by lia. reflexivity. }
    destruct (Bool.eqb (re_search text) b) eqn:E.
    + apply Bool.eqb_prop in E. simpl. split.
      * intros [<-|H].
        -- split; [lia|]. exists text. now rewrite Nat.sub_diag.
        -- apply Hrest in H. destruct H as (Hk & t & Ht & Hb).
           split; [lia|]. exists t. now rewrite Hshift.
      * intros (Hk & t & Ht & Hb).
        destruct (Nat.eq_dec k i) as [->|Hne]; [now left|right].
        apply Hrest. split; [lia|]. exists t. rewrite <- Hshift by lia. auto.
    + apply Bool.eqb_false_iff in E. split.
      * intros H. apply Hrest in H. destruct H as (Hk & t & Ht & Hb).
        split; [lia|]. exists t. now rewrite Hshift.
      * intros (Hk & t & Ht & Hb).
        destruct (Nat.eq_dec k i) as [->|Hne].
        -- rewrite Nat.sub_diag in Ht. simpl in Ht. injection Ht as ->.
           contradiction.
        -- apply Hrest. split; [lia|]. exists t.
           rewrite <- Hshift by lia. auto.
Qed.

Lemma pages_where_sorted b texts :
  forall k, StronglySorted lt (pages_where re_search b texts k).
Proof.
  induction texts as [|text rest IH]; intros k; simpl; [constructor|].
  destruct (Bool.eqb (re_search text) b); [|apply IH].
  constructor; [apply IH|].
  apply Forall_forall. intros i Hi. apply pages_where_in in Hi. lia.
Qed.

Lemma pages_where_lengths texts :
  forall k,
    (List.length (pages_where re_search true texts k)
     + List.length (pages_where re_search false texts k)
     = List.length texts)%nat.
Proof.
  induction texts as [|text rest IH]; intros k; simpl; [reflexivity|].
  specialize (IH (S k)). destruct (re_search text); simpl; lia.
Qed.

End PageClassifier.

(** X21.  [page_classifier] returns the numbers of the pages whose text
    the search matches, and no other number, in increasing order; the
    pages it drops are those the search does not match, and every page of
    the document is in exactly one of the two lists. *)
Theorem page_classifier_pages (re_search : string -> bool) (doc : list string) :
  (forall i,
      In i (PdfOpener.page_classifier re_search doc)
      <-> exists text, nth_error doc i = Some text /\ re_search text = true)
  /\ (forall i,
        In i (PdfOpener.deleted_pages re_search doc)
        <-> exists text, nth_error doc i = Some text /\ re_search text = false)
  /\ StronglySorted lt (PdfOpener.page_classifier re_search doc)
  /\ (List.length (PdfOpener.page_classifier re_search doc)
      + List.length (PdfOpener.deleted_pages re_search doc)
      = List.length doc)%nat.
Proof.
  unfold PdfOpener.page_classifier, PdfOpener.deleted_pages.
  rewrite classify_pages_spec. simpl.
  split; [|split; [|split]].
  - intros i. rewrite pages_where_in, Nat.sub_0_r.
    split; [intros [_ H]; exact H|intros H; split; [lia|exact H]].
  - intros i. rewrite pages_where_in, Nat.sub_0_r.
    split; [intros [_ H]; exact H|intros H; split; [lia|exact H]].
  - apply pages_where_sorted.
  - apply pages_where_lengths.
Qed.
